(** * The Notion data module of the family blog (src/_data/notion.js)

    A shallow embedding of [src/_data/notion.js]: the data file that resolves
    the Notion data source, queries the published posts, flattens each post's
    property bag and renders each post's blocks to lightweight markup.

    The module is JavaScript over parsed JSON, so the embedding has
    - JS strings as sequences of UTF-16 code units,
    - JS values as the JSON values (plus the few built-in objects a JSON
      object inherits from [Object.prototype]),
    - exceptions as an error monad,
    - the network ([Cache]) and the environment as an explicit [World],
    - [Promise.all] as slot writes in completion order.
    Console output ([console.warn], [console.error]) is not modelled. *)

From Stdlib Require Import Ascii String.
From stdpp Require Import gmap list fin_maps pretty.

Set Warnings "-register-all".

(** ** Strings *)

(** A JS string is a sequence of 16-bit code units. *)
Abbreviation jsstring := (list N).

Definition code (c : ascii) : N := N_of_ascii c.

(** An ASCII literal as a JS string. *)
Definition js (s : string) : jsstring := code <$> list_ascii_of_string s.
Arguments js s%_string.

(** [\s] of a JS regular expression, which is also what [trim] removes:
    WhiteSpace and LineTerminator of ECMAScript. *)
Definition is_space (c : N) : bool :=
  ((9 <=? c) && (c <=? 13) || (c =? 32) || (c =? 0xA0) || (c =? 0x1680)
   || (0x2000 <=? c) && (c <=? 0x200A) || (c =? 0x2028) || (c =? 0x2029)
   || (c =? 0x202F) || (c =? 0x205F) || (c =? 0x3000) || (c =? 0xFEFF))%N.

(** [\w] of a JS regular expression without flags: [A-Za-z0-9_]. *)
Definition is_word (c : N) : bool :=
  ((65 <=? c) && (c <=? 90) || (97 <=? c) && (c <=? 122)
   || (48 <=? c) && (c <=? 57) || (c =? 95))%N.

Definition is_hyphen (c : N) : bool := (c =? 45)%N.
Definition is_ampersand (c : N) : bool := (c =? 38)%N.

(** The class of [/[\u0300-\u036f]/]: the combining diacritical marks. *)
Definition is_combining_mark (c : N) : bool := ((0x300 <=? c) && (c <=? 0x36F))%N.

(** [[^\w\-]] *)
Definition is_not_word_or_hyphen (c : N) : bool := negb (is_word c || is_hyphen c).

Fixpoint drop_while (p : N → bool) (s : jsstring) : jsstring :=
  match s with
  | [] => []
  | c :: r => if p c then drop_while p r else s
  end.

(** [String.prototype.trim] *)
Definition trim (s : jsstring) : jsstring :=
  reverse (drop_while is_space (reverse (drop_while is_space s))).

(** [s.replace(/C/g, rep)] for a character class [C]: every character of the
    class is replaced by [rep]. *)
Definition replace_each (cls : N → bool) (rep : jsstring) (s : jsstring) : jsstring :=
  s ≫= λ c, if cls c then rep else [c].

(** What a pending run of class characters becomes when it ends: [rep] when
    the pattern [C{min,}] matched it, itself when it was too short. *)
Definition flush_run (min : nat) (rep run : jsstring) : jsstring :=
  match run with
  | [] => []
  | _ :: _ => if decide (min ≤ length run) then rep else run
  end.

(** [s.replace(/C+/g, rep)] ([min = 1]) and [s.replace(/CC+/g, rep)]
    ([min = 2]) for a character class [C]: the greedy quantifier takes every
    maximal run of class characters; a run of at least [min] characters is
    replaced by [rep], a shorter one stays. [run] is the run being scanned. *)
Fixpoint replace_runs_from (cls : N → bool) (min : nat) (rep run s : jsstring) : jsstring :=
  match s with
  | [] => flush_run min rep run
  | c :: r =>
      if cls c then replace_runs_from cls min rep (run ++ [c]) r
      else flush_run min rep run ++ c :: replace_runs_from cls min rep [] r
  end.

Definition replace_runs (cls : N → bool) (min : nat) (rep s : jsstring) : jsstring :=
  replace_runs_from cls min rep [] s.

(** ** The built-ins that rest on Unicode tables or on number parsing

    [toLowerCase] and [normalize('NFD')] are driven by the Unicode character
    database, and comparing a string with a number parses it as a numeric
    literal. The module only calls them, so the development is parametric in
    them; [latin1] below instantiates them for the examples. *)
Class Engine := {
  (** [String.prototype.toLowerCase] *)
  toLowerCase : jsstring → jsstring;
  (** [String.prototype.normalize('NFD')] *)
  normalize_NFD : jsstring → jsstring;
  (** [s > 0] for a string [s]: [StringToNumber(s)] is a number above zero *)
  StringToNumber_gt0 : jsstring → bool;
}.

(** ** Values *)

(** The values the module handles are parsed JSON: [Num] holds the integral
    numbers JS prints in plain decimal. Reading a property a JSON object does
    not own reaches [Object.prototype]; [Native name] is the built-in object
    found there under [name]. *)
Inductive value :=
  | Undefined
  | Null
  | Bool (b : bool)
  | Num (n : Z)
  | Str (s : jsstring)
  | Arr (l : list value)
  | Obj (m : gmap jsstring value)
  | Native (name : jsstring).

(** ** Exceptions *)

Inductive exn :=
  | TypeError
  | Error (message : string).

Inductive result (A : Type) :=
  | Ok (a : A)
  | Throw (e : exn).
Arguments Ok {A} a.
Arguments Throw {A} e.

Definition bind {A B} (r : result A) (f : A → result B) : result B :=
  match r with
  | Ok a => f a
  | Throw e => Throw e
  end.

Notation "x <- c ;; k" := (bind c (λ x, k))
  (at level 100, c at next level, right associativity).

(** [try { body } catch (error) { handler }] *)
Definition try_catch {A} (body : result A) (handler : exn → result A) : result A :=
  match body with
  | Ok a => Ok a
  | Throw e => handler e
  end.

(** [Array.prototype.map] with a callback that may throw. *)
Fixpoint Array_map {A B} (f : A → result B) (l : list A) : result (list B) :=
  match l with
  | [] => Ok []
  | x :: r => y <- f x;; ys <- Array_map f r;; Ok (y :: ys)
  end.

(** [Array.prototype.filter] with a callback that may throw. *)
Fixpoint Array_filter {A} (f : A → result bool) (l : list A) : result (list A) :=
  match l with
  | [] => Ok []
  | x :: r => b <- f x;; ys <- Array_filter f r;; Ok (if b then x :: ys else ys)
  end.

(** ** Primitive operations on values *)

Definition nullish (v : value) : bool :=
  match v with
  | Undefined | Null => true
  | _ => false
  end.

(** [ToBoolean] *)
Definition ToBoolean (v : value) : bool :=
  match v with
  | Undefined | Null => false
  | Bool b => b
  | Num n => negb (n =? 0)%Z
  | Str s => negb (bool_decide (s = []))
  | Arr _ | Obj _ | Native _ => true
  end.

(** [a || b] *)
Definition or_else (a b : value) : value := if ToBoolean a then a else b.

(** [a && b] *)
Definition and_then (a b : value) : value := if ToBoolean a then b else a.

Definition digit_of (c : N) : option nat :=
  if ((48 <=? c) && (c <=? 57))%N then Some (N.to_nat (c - 48)) else None.

Fixpoint digits_value (acc : nat) (k : jsstring) : option nat :=
  match k with
  | [] => Some acc
  | c :: r => d ← digit_of c; digits_value (10 * acc + d) r
  end.

(** The array index a property key denotes: a decimal numeral without a
    leading zero. *)
Definition index_of_key (k : jsstring) : option nat :=
  match k with
  | [] => None
  | [c] => digit_of c
  | c :: _ => if (c =? 48)%N then None else digits_value 0 k
  end.

(** The name of an array index as a property key. *)
Definition key_of_index (i : nat) : jsstring := js (pretty i).

(** The members of [Object.prototype], which every JSON object inherits. *)
Definition Object_prototype_members : list jsstring :=
  [js "constructor"; js "hasOwnProperty"; js "isPrototypeOf";
   js "propertyIsEnumerable"; js "toLocaleString"; js "toString";
   js "valueOf"; js "__defineGetter__"; js "__defineSetter__";
   js "__lookupGetter__"; js "__lookupSetter__"; js "__proto__"].

(** The [length] of the built-in found under [name]: the arity of a method,
    nothing for [__proto__], which is [Object.prototype] itself. *)
Definition Native_length (name : jsstring) : value :=
  if bool_decide (name ∈ [js "toLocaleString"; js "toString"; js "valueOf"]) then Num 0
  else if bool_decide (name ∈ [js "__defineGetter__"; js "__defineSetter__"]) then Num 2
  else if bool_decide (name = js "__proto__") then Undefined
  else Num 1.

(** [v[k]] for a [v] that is neither [undefined] nor [null]. Strings and
    arrays answer for their indices and their [length]. Their other inherited
    members, and those of numbers, booleans and built-ins, are left out:
    the module reads such receivers only under the keys [select], [type],
    [length], [text], [content], [file], [url], [name], [id], [0],
    [properties], [created_time], [results], [data_sources], [Title] and,
    for a missing [type], [undefined]; none of these prototypes defines
    any of them. *)
Definition prop (v : value) (k : jsstring) : value :=
  match v with
  | Undefined | Null | Bool _ | Num _ => Undefined
  | Str s =>
      if bool_decide (k = js "length") then Num (Z.of_nat (length s))
      else match index_of_key k ≫= (s !!.) with
           | Some c => Str [c]
           | None => Undefined
           end
  | Arr l =>
      if bool_decide (k = js "length") then Num (Z.of_nat (length l))
      else default Undefined (index_of_key k ≫= (l !!.))
  | Obj m =>
      match m !! k with
      | Some x => x
      | None => if bool_decide (k ∈ Object_prototype_members) then Native k else Undefined
      end
  | Native name => if bool_decide (k = js "length") then Native_length name else Undefined
  end.

(** [v.k] and [v[k]]: a TypeError on [undefined] and [null]. *)
Definition get (v : value) (k : jsstring) : result value :=
  if nullish v then Throw TypeError else Ok (prop v k).

(** [v?.k] and [v?.[k]] *)
Definition get_opt (v : value) (k : jsstring) : value :=
  if nullish v then Undefined else prop v k.

Definition Array_isArray (v : value) : bool :=
  match v with
  | Arr _ => true
  | _ => false
  end.

Fixpoint join_strings (sep : jsstring) (l : list jsstring) : jsstring :=
  match l with
  | [] => []
  | [s] => s
  | s :: r => s ++ sep ++ join_strings sep r
  end.

(** [ToString]. An array prints its elements joined by commas, [undefined]
    and [null] elements as nothing. A JSON object prints through the
    inherited [toString], unless it owns a property of that name: that
    property cannot be called, the inherited [valueOf] returns the object,
    and the conversion ends in a TypeError. *)
Fixpoint ToString (v : value) : result jsstring :=
  match v with
  | Undefined => Ok (js "undefined")
  | Null => Ok (js "null")
  | Bool true => Ok (js "true")
  | Bool false => Ok (js "false")
  | Num n => Ok (js (pretty n))
  | Str s => Ok s
  | Arr l =>
      ss <- (fix elements (l : list value) : result (list jsstring) :=
              match l with
              | [] => Ok []
              | x :: r =>
                  s <- (if nullish x then Ok [] else ToString x);;
                  ss <- elements r;;
                  Ok (s :: ss)
              end) l;;
      Ok (join_strings (js ",") ss)
  | Obj m =>
      if bool_decide (is_Some (m !! js "toString")) then Throw TypeError
      else Ok (js "[object Object]")
  | Native name =>
      if bool_decide (name = js "__proto__") then Ok (js "[object Object]")
      else Ok (js "function " ++ (if bool_decide (name = js "constructor")
                                  then js "Object" else name)
               ++ js "() { [native code] }")
  end.

(** [Array.prototype.join] *)
Definition Array_join (sep : jsstring) (l : list value) : result jsstring :=
  ss <- Array_map (λ x, if nullish x then Ok [] else ToString x) l;;
  Ok (join_strings sep ss).

(** [ToPropertyKey], for the computed member access [v[k]]. *)
Definition ToPropertyKey (k : value) : result jsstring := ToString k.

(** [v > 0]: the operand is made a primitive with hint number, then a
    number. Arrays and objects have no primitive [valueOf], so they go
    through [toString]; the text of an object or a built-in is no numeral. *)
Definition greater_than_zero `{Engine} (v : value) : result bool :=
  match v with
  | Undefined | Null => Ok false
  | Bool b => Ok b
  | Num n => Ok (0 <? n)%Z
  | Str s => Ok (StringToNumber_gt0 s)
  | Arr _ => s <- ToString v;; Ok (StringToNumber_gt0 s)
  | Obj _ | Native _ => _ <- ToString v;; Ok false
  end.

(** [v === s] for a string literal [s], as a [switch] compares. *)
Definition is_string (v : value) (s : jsstring) : bool :=
  match v with
  | Str t => bool_decide (t = s)
  | _ => false
  end.

(** The own enumerable properties of a value: the fields of an object, the
    elements of an array and the characters of a string under their indices. *)
Definition own_properties (v : value) : gmap jsstring value :=
  match v with
  | Obj m => m
  | Arr l => list_to_map (imap (λ i x, (key_of_index i, x)) l)
  | Str s => list_to_map (imap (λ i c, (key_of_index i, Str [c])) s)
  | Undefined | Null | Bool _ | Num _ | Native _ => ∅
  end.

(** [Object.entries]. JS lists integer-like keys first and the others in
    insertion order; a finite map has no order, so the entries come in the
    map's own. The module folds them into an object, where the order of
    distinct keys does not show. *)
Definition Object_entries (v : value) : result (list (jsstring * value)) :=
  if nullish v then Throw TypeError else Ok (map_to_list (own_properties v)).

(** The object literal [{...a, ...b}]. *)
Definition spread (a b : value) : value := Obj (own_properties b ∪ own_properties a).

(** The receiver of [.map(...)]: only an array has the method; on anything
    else the call is a TypeError. *)
Definition array_receiver (v : value) : result (list value) :=
  match v with
  | Arr l => Ok l
  | _ => Throw TypeError
  end.

(** ** The world outside the module *)

(** [process.env.DATABASE_ID] and the awaited [Cache(url, options)] of
    [@11ty/eleventy-cache-assets]: the parsed JSON body, or a thrown error.
    Each of the three call sites has its own fixed options and URL shape, so
    the URL stands for the request. *)
Record World := {
  DATABASE_ID : option jsstring;
  Cache : jsstring → result value;
}.

Definition ROOT_NOTION_API : jsstring := js "https://api.notion.com/v1".

(** An environment variable inside a template literal. *)
Definition env_text (x : option jsstring) : jsstring := default (js "undefined") x.

Definition NoDataSourceError : exn := Error "No data sources found in database".

(** ** getDataSourceId (lines 7-31) *)
Definition getDataSourceId `{Engine} (w : World) : result value :=
  try_catch
    (databaseResponse <- Cache w (ROOT_NOTION_API ++ js "/databases/" ++ env_text (DATABASE_ID w));;
     data_sources <- get databaseResponse (js "data_sources");;
     listed <- (if ToBoolean data_sources
                then len <- get data_sources (js "length");; greater_than_zero len
                else Ok false);;
     if listed : bool
     then first <- get data_sources (js "0");; get first (js "id")
     else Throw NoDataSourceError)
    (λ error, Throw error).

(** ** getDatabaseData (lines 33-72) *)
Definition getDatabaseData `{Engine} (w : World) : result value :=
  try_catch
    (dataSourceId <- getDataSourceId w;;
     id <- ToString dataSourceId;;
     dataBaseData <- Cache w (ROOT_NOTION_API ++ js "/data_sources/" ++ id ++ js "/query");;
     get dataBaseData (js "results"))
    (λ error, Ok (Arr [])).

(** ** getPageBlockChildrenData (lines 74-88) *)
Definition getPageBlockChildrenData (w : World) (blockId : value) : result value :=
  id <- ToString blockId;;
  Cache w (ROOT_NOTION_API ++ js "/blocks/" ++ id ++ js "/children").

(** ** slugify (lines 90-98) *)

(** The chain of string methods applied to [text.toString()]. *)
Definition slug_text `{Engine} (s : jsstring) : jsstring :=
  replace_runs is_hyphen 2 (js "-")
    (replace_runs is_not_word_or_hyphen 1 []
      (replace_each is_ampersand (js "-and-")
        (replace_runs is_space 1 (js "-")
          (replace_each is_combining_mark []
            (normalize_NFD (trim (toLowerCase s))))))).

Definition slugify `{Engine} (text : value) : result jsstring :=
  if ToBoolean text then s <- ToString text;; Ok (slug_text s) else Ok [].

(** ** mapNotionResponseToTextContent (lines 100-132) *)

(** [payload[0]?.text?.content || ''] *)
Definition first_text_content (first : value) : value :=
  or_else (get_opt (get_opt first (js "text")) (js "content")) (Str []).

(** [payload[0]?.file?.url || ''] *)
Definition first_file_url (first : value) : value :=
  or_else (get_opt (get_opt first (js "file")) (js "url")) (Str []).

(** [payload && Array.isArray(payload) && payload.length > 0] *)
Definition is_filled_array `{Engine} (payload : value) : result bool :=
  if ToBoolean payload && Array_isArray payload
  then len <- get payload (js "length");; greater_than_zero len
  else Ok false.

Definition mapNotionResponseToTextContent `{Engine} (entry : jsstring * value) : result value :=
  let '(key, property) := entry in
  try_catch
    (type <- get property (js "type");;
     if is_string type (js "rich_text") || is_string type (js "text")
        || is_string type (js "title") then
       k <- ToPropertyKey type;;
       payload <- get property k;;
       filled <- is_filled_array payload;;
       if filled : bool
       then first <- get payload (js "0");; Ok (Obj {[ key := first_text_content first ]})
       else Ok Undefined
     else if is_string type (js "files") then
       k <- ToPropertyKey type;;
       payload <- get property k;;
       filled <- is_filled_array payload;;
       if filled : bool
       then first <- get payload (js "0");; Ok (Obj {[ key := first_file_url first ]})
       else Ok Undefined
     else if is_string type (js "select") then
       k <- ToPropertyKey type;;
       payload <- get property k;;
       if ToBoolean payload
       then Ok (Obj {[ key := or_else (get_opt payload (js "name")) (Str []) ]})
       else Ok Undefined
     else Ok Undefined)
    (λ error, Ok Undefined).

(** ** The exported function, first stage: flattening (lines 139-160) *)

(** The callback of [.filter] at lines 142-143:
    [property.select || (property[property.type] && property[property.type].length)] *)
Definition has_content (entry : jsstring * value) : result bool :=
  let '(key, property) := entry in
  select <- get property (js "select");;
  if ToBoolean select then Ok true
  else
    type <- get property (js "type");;
    k <- ToPropertyKey type;;
    payload <- get property k;;
    if ToBoolean payload
    then len <- get payload (js "length");; Ok (ToBoolean len)
    else Ok false.

(** The [.filter(...).map(...).reduce(...)] chain over the entries of a
    property bag (lines 140-151). *)
Definition flattenProperties `{Engine} (properties : value) : result value :=
  entries <- Object_entries properties;;
  kept <- Array_filter has_content entries;;
  mapped <- Array_map mapNotionResponseToTextContent kept;;
  Ok (foldl spread (Obj ∅) mapped).

(** The callback of [databaseData.map] (lines 139-160). *)
Definition flatten `{Engine} (post : value) : result value :=
  properties <- get post (js "properties");;
  flattenedProperties <- flattenProperties properties;;
  id <- get post (js "id");;
  created <- get post (js "created_time");;
  url <- get post (js "url");;
  Title <- get flattenedProperties (js "Title");;
  slug <- slugify Title;;
  Ok (Obj (own_properties flattenedProperties
           ∪ <[js "id" := id]> (<[js "created" := created]>
               (<[js "url" := url]> {[ js "slug" := Str slug ]})))).

(** ** Second stage: rendering the blocks (lines 162-220) *)

(** [blockContent?.text?.[0]?.text?.content || ''] *)
Definition first_run_text (blockContent : value) : value :=
  or_else (get_opt (get_opt (get_opt (get_opt blockContent (js "text")) (js "0"))
                      (js "text")) (js "content"))
          (Str []).

(** The [switch] at lines 176-205: [mdConvert] and [mdText]. *)
Definition block_markup (type blockContent : value) : result (jsstring * value) :=
  if is_string type (js "heading_1") then Ok (js "#", first_run_text blockContent)
  else if is_string type (js "heading_2") then Ok (js "##", first_run_text blockContent)
  else if is_string type (js "heading_3") then Ok (js "###", first_run_text blockContent)
  else if is_string type (js "bulleted_list_item") then Ok (js "- ", first_run_text blockContent)
  else if is_string type (js "paragraph") then Ok ([], first_run_text blockContent)
  else if is_string type (js "image") then
    url <- ToString (or_else (get_opt (get_opt blockContent (js "file")) (js "url")) (Str []));;
    Ok ([], Str (js "![post block related](" ++ url ++ js ")"))
  else Ok ([], first_run_text blockContent).

(** The body of the [try] at lines 168-207. *)
Definition block_conversion (block : value) : result value :=
  if negb (ToBoolean block) then Ok (Str [])
  else
    type <- get block (js "type");;
    if negb (ToBoolean type) then Ok (Str [])
    else
      k <- ToPropertyKey type;;
      blockContent <- get block k;;
      if negb (ToBoolean blockContent) then Ok (Str [])
      else
        md <- block_markup type blockContent;;
        let '(mdConvert, mdText) := md in
        if ToBoolean (Str mdConvert) && ToBoolean mdText
        then text <- ToString mdText;; Ok (Str (mdConvert ++ js " " ++ text))
        else Ok mdText.

(** The callback of [.map] at lines 166-212. *)
Definition block_to_line (block : value) : result value :=
  try_catch (block_conversion block) (λ error, Ok (Str [])).

Definition newline : jsstring := [10%N].

(** [blocks.map(...).filter(text => text.length > 0).join('\n')]
    (lines 165-214). *)
Definition renderBlocks `{Engine} (blocks : list value) : result jsstring :=
  lines <- Array_map block_to_line blocks;;
  kept <- Array_filter (λ text, len <- get text (js "length");; greater_than_zero len) lines;;
  Array_join newline kept.

(** The async callback of [results.map] (lines 162-220), run to its end. *)
Definition render_post `{Engine} (w : World) (result' : value) : result value :=
  id <- get result' (js "id");;
  blockData <- getPageBlockChildrenData w id;;
  results <- get blockData (js "results");;
  blocks <- array_receiver (or_else results (Arr []));;
  mappedBlockData <- renderBlocks blocks;;
  Ok (Obj (<[js "block" := Str mappedBlockData]> (own_properties result'))).

(** ** Promise.all

    The promises settle in some order; [sched] lists task indices in
    completion order. A fulfilled task writes its value into the slot of its
    own index, the first rejected one rejects the whole. An index that names
    no task is no event, and whatever the schedule leaves pending completes
    after it, so every schedule describes a complete run. *)
Fixpoint settle (tasks : list (result value)) (events : list nat)
    (values : list value) : result (list value) :=
  match events with
  | [] => Ok values
  | i :: later =>
      match tasks !! i with
      | None => settle tasks later values
      | Some (Throw e) => Throw e
      | Some (Ok v) => settle tasks later (<[i := v]> values)
      end
  end.

Definition Promise_all (sched : list nat) (tasks : list (result value)) : result (list value) :=
  settle tasks (sched ++ seq 0 (length tasks)) (replicate (length tasks) Undefined).

(** ** The exported function (lines 134-231) *)
Definition module_exports `{Engine} (w : World) (sched : list nat) : result value :=
  try_catch
    (databaseData <- getDatabaseData w;;
     posts <- array_receiver databaseData;;
     results <- Array_map flatten posts;;
     finalResult <- Promise_all sched (render_post w <$> results);;
     Ok (Obj {[ js "posts" := Arr finalResult ]}))
    (λ error, Ok (Obj {[ js "posts" := Arr [] ]})).

(** ** An engine for the examples

    [latin1] agrees with the built-ins on the strings of U+0000..U+00FF (for
    [StringToNumber_gt0]: on plain decimal numerals), where the tables are
    small enough to write down. The examples stay within that range; the
    general theorems hold for every engine. *)

Definition latin1_lower (c : N) : N :=
  if ((65 <=? c) && (c <=? 90)
      || (0xC0 <=? c) && (c <=? 0xDE) && negb (c =? 0xD7))%N
  then (c + 32)%N else c.

(** The canonical decompositions of the capital letters of Latin-1: the
    letter, its base letter and its combining mark. Those of the small
    letters lie 32 above in letter and base, and U+00FF is y with diaeresis. *)
Definition latin1_decompositions : list (N * (N * N)) :=
  [(0xC0, (65, 0x300)); (0xC1, (65, 0x301)); (0xC2, (65, 0x302));
   (0xC3, (65, 0x303)); (0xC4, (65, 0x308)); (0xC5, (65, 0x30A));
   (0xC7, (67, 0x327));
   (0xC8, (69, 0x300)); (0xC9, (69, 0x301)); (0xCA, (69, 0x302));
   (0xCB, (69, 0x308));
   (0xCC, (73, 0x300)); (0xCD, (73, 0x301)); (0xCE, (73, 0x302));
   (0xCF, (73, 0x308));
   (0xD1, (78, 0x303));
   (0xD2, (79, 0x300)); (0xD3, (79, 0x301)); (0xD4, (79, 0x302));
   (0xD5, (79, 0x303)); (0xD6, (79, 0x308));
   (0xD9, (85, 0x300)); (0xDA, (85, 0x301)); (0xDB, (85, 0x302));
   (0xDC, (85, 0x308));
   (0xDD, (89, 0x301))]%N.

Definition latin1_decompose (c : N) : jsstring :=
  if (c =? 0xFF)%N then [121; 0x308]%N
  else if ((0xE0 <=? c) && (c <=? 0xFD))%N then
    match (list_to_map latin1_decompositions : gmap N (N * N)) !! (c - 32)%N with
    | Some (base, mark) => [base + 32; mark]%N
    | None => [c]
    end
  else
    match (list_to_map latin1_decompositions : gmap N (N * N)) !! c with
    | Some (base, mark) => [base; mark]
    | None => [c]
    end.

Definition decimal_gt0 (s : jsstring) : bool :=
  match s with
  | [] => false
  | _ :: _ =>
      match digits_value 0 s with
      | Some n => bool_decide (0 < n)
      | None => false
      end
  end.

#[global] Instance latin1 : Engine := {|
  toLowerCase s := latin1_lower <$> s;
  normalize_NFD s := s ≫= latin1_decompose;
  StringToNumber_gt0 := decimal_gt0;
|}.

(** ** The data model of the specification

    The specification types what the Notion API sends: a property is a
    tagged union over its kind, a block likewise. The encoders give the JSON
    these stand for, which is what the module receives. *)

(** A text run, with its content when it has one: [{text: {content}}]. *)
Definition encode_run (content : option jsstring) : value :=
  match content with
  | Some s => Obj {[ js "text" := Obj {[ js "content" := Str s ]} ]}
  | None => Obj ∅
  end.

(** A file entry, with its URL when it has one: [{file: {url}}]. *)
Definition encode_file (url : option jsstring) : value :=
  match url with
  | Some u => Obj {[ js "file" := Obj {[ js "url" := Str u ]} ]}
  | None => Obj ∅
  end.

Inductive TextKind := kind_rich_text | kind_text | kind_title.

Definition TextKind_name (k : TextKind) : jsstring :=
  match k with
  | kind_rich_text => js "rich_text"
  | kind_text => js "text"
  | kind_title => js "title"
  end.

(** [PSelect None] is a select property without a chosen option (a [null]
    payload); [POther] is a property of a kind the module does not handle,
    with whatever payload it has. *)
Inductive PropertyValue :=
  | PText (kind : TextKind) (runs : list (option jsstring))
  | PFiles (files : list (option jsstring))
  | PSelect (choice : option (option jsstring))
  | POther (kind : jsstring) (payload : value).

Definition encode_property (p : PropertyValue) : value :=
  match p with
  | PText k runs =>
      Obj (<[js "type" := Str (TextKind_name k)]>
             {[ TextKind_name k := Arr (encode_run <$> runs) ]})
  | PFiles files =>
      Obj (<[js "type" := Str (js "files")]> {[ js "files" := Arr (encode_file <$> files) ]})
  | PSelect choice =>
      Obj (<[js "type" := Str (js "select")]>
             {[ js "select" := match choice with
                               | None => Null
                               | Some None => Obj ∅
                               | Some (Some name) => Obj {[ js "name" := Str name ]}
                               end ]})
  | POther k payload => Obj (<[js "type" := Str k]> {[ k := payload ]})
  end.

(** The names a [POther] kind cannot have: the handled kinds, and [type],
    the field that holds the tag. *)
Definition reserved_property_kinds : list jsstring :=
  [js "rich_text"; js "text"; js "title"; js "files"; js "select"; js "type"].

Definition well_kinded (p : PropertyValue) : Prop :=
  match p with
  | POther k _ => k ∉ reserved_property_kinds
  | _ => True
  end.

Record RawPost := {
  post_id : jsstring;
  post_created_time : jsstring;
  post_url : jsstring;
  post_properties : gmap jsstring PropertyValue;
}.

Definition encode_post (p : RawPost) : value :=
  Obj (<[js "id" := Str (post_id p)]>
      (<[js "created_time" := Str (post_created_time p)]>
      (<[js "url" := Str (post_url p)]>
         {[ js "properties" := Obj (encode_property <$> post_properties p) ]}))).

(** Spec 4.3, per property: the display string of a property that is kept,
    nothing for one that is empty or of another kind. *)
Definition spec_property_text (p : PropertyValue) : option jsstring :=
  match p with
  | PText _ [] => None
  | PText _ (run :: _) => Some (default [] run)
  | PFiles [] => None
  | PFiles (file :: _) => Some (default [] file)
  | PSelect None => None
  | PSelect (Some name) => Some (default [] name)
  | POther _ _ => None
  end.

(** Spec 4.3: the slug of the flattened [Title]; empty when there is none. *)
Definition spec_slug `{Engine} (title : option jsstring) : jsstring :=
  match title with
  | Some (c :: r) => slug_text (c :: r)
  | _ => []
  end.

(** Spec 4.3: the fixed fields, with the flattened properties merged over
    them. *)
Definition spec_flatten `{Engine} (p : RawPost) : gmap jsstring value :=
  let fields := omap spec_property_text (post_properties p) in
  (Str <$> fields)
  ∪ <[js "id" := Str (post_id p)]> (<[js "created" := Str (post_created_time p)]>
      (<[js "url" := Str (post_url p)]>
         {[ js "slug" := Str (spec_slug (fields !! js "Title")) ]})).

Inductive BlockKind :=
  | heading_1
  | heading_2
  | heading_3
  | bulleted_list_item
  | paragraph
  | other_kind (name : jsstring).

Definition BlockKind_name (k : BlockKind) : jsstring :=
  match k with
  | heading_1 => js "heading_1"
  | heading_2 => js "heading_2"
  | heading_3 => js "heading_3"
  | bulleted_list_item => js "bulleted_list_item"
  | paragraph => js "paragraph"
  | other_kind name => name
  end.

Inductive Block :=
  | TextBlock (kind : BlockKind) (runs : list (option jsstring))
  | ImageBlock (file_url : option jsstring).

Definition encode_block (b : Block) : value :=
  match b with
  | TextBlock k runs =>
      Obj (<[js "type" := Str (BlockKind_name k)]>
             {[ BlockKind_name k := Obj {[ js "text" := Arr (encode_run <$> runs) ]} ]})
  | ImageBlock url =>
      Obj (<[js "type" := Str (js "image")]> {[ js "image" := encode_file url ]})
  end.

(** The names an [other_kind] cannot have: the recognized kinds, the empty
    name and [type]. *)
Definition reserved_block_kinds : list jsstring :=
  [js "heading_1"; js "heading_2"; js "heading_3"; js "bulleted_list_item";
   js "paragraph"; js "image"; js "type"; []].

Definition well_kinded_block (b : Block) : Prop :=
  match b with
  | TextBlock (other_kind name) _ => name ∉ reserved_block_kinds
  | _ => True
  end.

(** Spec 4.4, step 3: the table of prefixes and text sources. *)
Definition spec_prefix (b : Block) : jsstring :=
  match b with
  | TextBlock heading_1 _ => js "#"
  | TextBlock heading_2 _ => js "##"
  | TextBlock heading_3 _ => js "###"
  | TextBlock bulleted_list_item _ => js "- "
  | _ => []
  end.

Definition spec_text (b : Block) : jsstring :=
  match b with
  | TextBlock _ [] => []
  | TextBlock _ (run :: _) => default [] run
  | ImageBlock url => js "![post block related](" ++ default [] url ++ js ")"
  end.

(** Spec 4.4, step 4. *)
Definition spec_line (b : Block) : jsstring :=
  if bool_decide (spec_prefix b ≠ [] ∧ spec_text b ≠ [])
  then spec_prefix b ++ js " " ++ spec_text b
  else spec_text b.

(** Spec 4.4, steps 4 and 5. *)
Definition spec_renderBlocks (bs : list Block) : jsstring :=
  join_strings newline (filter (λ line, line ≠ []) (spec_line <$> bs)).

(** Spec 4.3, the steps of the slug in the specification's words. A run of
    class characters is collapsed by emitting [rep] at its first character
    and nothing at the others; [inside] tells whether the previous
    character was of the class. *)
Fixpoint collapse_runs (cls : N → bool) (rep : jsstring) (inside : bool)
    (s : jsstring) : jsstring :=
  match s with
  | [] => []
  | c :: r =>
      if cls c then (if inside then [] else rep) ++ collapse_runs cls rep true r
      else c :: collapse_runs cls rep false r
  end.

Definition spec_slug_text `{Engine} (s : jsstring) : jsstring :=
  let lowered := toLowerCase s in
  let trimmed := trim lowered in
  let stripped := filter (λ c, ¬ is_combining_mark c) (normalize_NFD trimmed) in
  let hyphenated := collapse_runs is_space (js "-") false stripped in
  let spelled := hyphenated ≫= (λ c, if is_ampersand c then js "-and-" else [c]) in
  let cleaned := filter (λ c, is_word c ∨ is_hyphen c) spelled in
  collapse_runs is_hyphen (js "-") false cleaned.

(** A string without two hyphens in a row. *)
Fixpoint no_double_hyphen (s : jsstring) : Prop :=
  match s with
  | c :: (d :: _) as r => ¬ (is_hyphen c ∧ is_hyphen d) ∧ no_double_hyphen r
  | _ => True
  end.

(** ** Example data *)

(** ["Hello & World! Déjà Vu"] *)
Definition hello_world : jsstring :=
  js "Hello & World! D" ++ [0xE9%N] ++ js "j" ++ [0xE0%N] ++ js " Vu".

(** A server that answers the listed URLs and fails on every other. *)
Definition serve (routes : list (jsstring * result value)) (url : jsstring) : result value :=
  default (Throw (Error "request failed")) ((list_to_map routes : gmap jsstring (result value)) !! url).

Definition database_url : jsstring := ROOT_NOTION_API ++ js "/databases/db".
Definition query_url (id : jsstring) : jsstring :=
  ROOT_NOTION_API ++ js "/data_sources/" ++ id ++ js "/query".
Definition children_url (id : jsstring) : jsstring :=
  ROOT_NOTION_API ++ js "/blocks/" ++ id ++ js "/children".

(** A database with the single data source [ds]. *)
Definition one_data_source : value :=
  Obj {[ js "data_sources" := Arr [Obj {[ js "id" := Str (js "ds") ]}] ]}.

Definition example_post (id : string) (title : string) : RawPost := {|
  post_id := js id;
  post_created_time := js "2025-02-01T00:00:00.000Z";
  post_url := js "https://www.notion.so/" ++ js id;
  post_properties :=
    <[js "Title" := PText kind_title [Some (js title)]]>
      {[ js "Status" := PSelect (Some (Some (js "Published"))) ]};
|}.

Definition example_blocks : list Block :=
  [TextBlock heading_1 [Some (js "Intro")];
   TextBlock paragraph [Some (js "Body text")];
   ImageBlock (Some (js "http://x/y.png"))].

(** A post one of whose properties came back as [null]. *)
Definition post_with_null_property : value :=
  Obj (<[js "id" := Str (js "p2")]>
         {[ js "properties" :=
              Obj (<[js "Title" := encode_property (PText kind_title [Some (js "Second")])]>
                     {[ js "Cover" := Null ]}) ]}).

(** Two published posts with their blocks. *)
Definition two_posts_world : World := {|
  DATABASE_ID := Some (js "db");
  Cache := serve
    [(database_url, Ok one_data_source);
     (query_url (js "ds"),
      Ok (Obj {[ js "results" := Arr [encode_post (example_post "p1" "My Post");
                                      encode_post (example_post "p2" "Second")] ]}));
     (children_url (js "p1"), Ok (Obj {[ js "results" := Arr (encode_block <$> example_blocks) ]}));
     (children_url (js "p2"), Ok (Obj {[ js "results" := Arr [] ]}))];
|}.

(** The same, except that the second post has a [null] property. *)
Definition null_property_world : World := {|
  DATABASE_ID := Some (js "db");
  Cache := serve
    [(database_url, Ok one_data_source);
     (query_url (js "ds"),
      Ok (Obj {[ js "results" := Arr [encode_post (example_post "p1" "My Post");
                                      post_with_null_property] ]}));
     (children_url (js "p1"), Ok (Obj {[ js "results" := Arr (encode_block <$> example_blocks) ]}));
     (children_url (js "p2"), Ok (Obj {[ js "results" := Arr [] ]}))];
|}.

(** A database that lists no data source, and a query that fails. *)
Definition no_data_source_world : World := {|
  DATABASE_ID := Some (js "db");
  Cache := serve [(database_url, Ok (Obj {[ js "data_sources" := Arr [] ]}))];
|}.

Definition failing_query_world : World := {|
  DATABASE_ID := Some (js "db");
  Cache := serve [(database_url, Ok one_data_source)];
|}.

(** The kinds the [switch] of the block renderer names. *)
Definition recognized_block_kinds : list jsstring :=
  [js "heading_1"; js "heading_2"; js "heading_3"; js "bulleted_list_item";
   js "paragraph"; js "image"].

(** The blocks that cannot be converted: the conversion throws, the block,
    its type or its payload is absent, or the type is not recognized and the
    payload has no text. *)
Inductive degraded_block : value → Prop :=
  | conversion_fails b e :
      block_conversion b = Throw e → degraded_block b
  | absent_block b :
      ToBoolean b = false → degraded_block b
  | absent_type b :
      ToBoolean b = true → ToBoolean (prop b (js "type")) = false → degraded_block b
  | absent_payload b k :
      ToBoolean b = true → ToPropertyKey (prop b (js "type")) = Ok k →
      ToBoolean (prop b k) = false → degraded_block b
  | unrecognized_without_text b k :
      ToBoolean b = true → prop b (js "type") = Str k →
      k ∉ recognized_block_kinds →
      nullish (prop (prop b k) (js "text")) = true → degraded_block b.

(** The line of an image block. *)
Definition image_line (url : jsstring) : jsstring :=
  js "![post block related](" ++ url ++ js ")".

(** The retrieval of the posts fails: the data source cannot be resolved,
    or the query request itself fails. *)
Definition retrieval_fails `{Engine} (w : World) : Prop :=
  (∃ e, getDataSourceId w = Throw e)
  ∨ (∃ dataSourceId id e,
       getDataSourceId w = Ok dataSourceId ∧ ToString dataSourceId = Ok id
       ∧ Cache w (query_url id) = Throw e).

(** ** Further notions for the properties of the module *)

(** The chain [.filter(...).map(...).reduce(...)] of lines 141-151 on a list
    of entries, in the order in which the list gives them. *)
Definition flattenEntries `{Engine} (entries : list (jsstring * value)) : result value :=
  kept <- Array_filter has_content entries;;
  mapped <- Array_map mapNotionResponseToTextContent kept;;
  Ok (foldl spread (Obj ∅) mapped).

(** The fields the object literal of lines 153-159 sets on every post. *)
Definition fixed_fields : list jsstring := [js "id"; js "created"; js "url"; js "slug"].

(** What the exported function resolves to when it has nothing to show. *)
Definition no_posts : value := Obj {[ js "posts" := Arr [] ]}.

(** A post as the templates receive it: the fixed fields and the rendered
    body. *)
Definition rendered_post (out : value) : Prop :=
  ∃ (m : gmap jsstring value) (body : jsstring),
    out = Obj m
    ∧ m !! js "block" = Some (Str body)
    ∧ Forall (λ k, is_Some (m !! k)) fixed_fields.

(** Two bodies one after the other: a newline between them when neither is
    empty. *)
Definition glue_bodies (a b : jsstring) : jsstring :=
  match a, b with
  | [], _ => b
  | _, [] => a
  | _, _ => a ++ newline ++ b
  end.

(** Two published posts, the blocks of the second of which cannot be
    fetched. *)
Definition failing_blocks_world : World := {|
  DATABASE_ID := Some (js "db");
  Cache := serve
    [(database_url, Ok one_data_source);
     (query_url (js "ds"),
      Ok (Obj {[ js "results" := Arr [encode_post (example_post "p1" "My Post");
                                      encode_post (example_post "p2" "Second")] ]}));
     (children_url (js "p1"), Ok (Obj {[ js "results" := Arr (encode_block <$> example_blocks) ]}))];
|}.

(** A query that answers with an error object instead of results. *)
Definition missing_results_world : World := {|
  DATABASE_ID := Some (js "db");
  Cache := serve
    [(database_url, Ok one_data_source);
     (query_url (js "ds"), Ok (Obj {[ js "object" := Str (js "error") ]}))];
|}.

(** A typed post as the world serves it: its properties are well kinded,
    none of them is kept under the name [id], and the request for the
    children of the post answers with the typed blocks [blocks]. *)
Definition served_post (w : World) (p : RawPost) (blocks : list Block) : Prop :=
  map_Forall (λ _, well_kinded) (post_properties p)
  ∧ post_properties p !! js "id" ≫= spec_property_text = None
  ∧ Forall well_kinded_block blocks
  ∧ Cache w (children_url (post_id p))
    = Ok (Obj {[ js "results" := Arr (encode_block <$> blocks) ]}).

(** Spec 4.5: the flattened post with its rendered body. *)
Definition spec_post `{Engine} (p : RawPost) (blocks : list Block) : value :=
  Obj (<[js "block" := Str (spec_renderBlocks blocks)]> (spec_flatten p)).

(** The blocks of the two example posts. *)
Definition example_blocks_of (p : RawPost) : list Block :=
  if bool_decide (post_id p = js "p1") then example_blocks else [].

(** * Properties *)

(** ** The error monad and the array methods *)

Lemma Array_map_Ok {A B} (f : A → result B) (g : A → B) (l : list A) :
  (∀ x, x ∈ l → f x = Ok (g x)) → Array_map f l = Ok (g <$> l).
Proof.
  induction l as [|x l IH]; intros Hf; [done|].
  simpl. rewrite Hf by left. simpl. rewrite IH; [done|].
  intros y Hy. apply Hf. by right.
Qed.

Lemma Array_filter_Ok {A} (f : A → result bool) (g : A → bool) (l : list A) :
  (∀ x, x ∈ l → f x = Ok (g x)) → Array_filter f l = Ok (filter (λ x, g x) l).
Proof.
  induction l as [|x l IH]; intros Hf; [done|].
  rewrite filter_cons. cbn [Array_filter bind]. rewrite Hf by left.
  rewrite IH by (intros y Hy; apply Hf; by right).
  cbn [bind]. destruct (g x); by case_decide.
Qed.

Lemma Array_map_app {A B} (f : A → result B) (l1 l2 : list A) :
  Array_map f (l1 ++ l2) = (ys1 <- Array_map f l1;; ys2 <- Array_map f l2;; Ok (ys1 ++ ys2)).
Proof.
  induction l1 as [|x l1 IH]; simpl.
  - by destruct (Array_map f l2).
  - destruct (f x); simpl; [|done]. rewrite IH.
    destruct (Array_map f l1); simpl; [|done]. by destruct (Array_map f l2).
Qed.

Lemma Array_map_length {A B} (f : A → result B) (l : list A) (ys : list B) :
  Array_map f l = Ok ys → length ys = length l.
Proof.
  revert ys. induction l as [|x l IH]; intros ys; simpl.
  - by intros [= <-].
  - destruct (f x); simpl; [|done]. destruct (Array_map f l); simpl; [|done].
    intros [= <-]. simpl. f_equal. by apply IH.
Qed.

Lemma Array_map_lookup {A B} (f : A → result B) (l : list A) (ys : list B) i x :
  Array_map f l = Ok ys → l !! i = Some x → ∃ y, f x = Ok y ∧ ys !! i = Some y.
Proof.
  revert ys i. induction l as [|x' l IH]; intros ys i; simpl; [done|].
  destruct (f x') as [y'|] eqn:Hfx; simpl; [|done].
  destruct (Array_map f l) as [ys'|]; simpl; [|done].
  intros [= <-] Hi. destruct i as [|i]; simpl in *.
  - injection Hi as ->. eauto.
  - by apply IH.
Qed.

(** ** The regular expressions of slugify *)

Lemma replace_each_remove (cls : N → bool) (s : jsstring) :
  replace_each cls [] s = filter (λ c, ¬ cls c) s.
Proof.
  unfold replace_each. induction s as [|c s IH]; [done|].
  rewrite filter_cons. csimpl. rewrite IH.
  destruct (cls c); case_decide; simpl in *; tauto || done.
Qed.

(** A run that the pattern always matches is collapsed to [rep]. *)
Lemma replace_runs_from_collapse (cls : N → bool) (min : nat) (rep : jsstring) :
  (∀ run, Forall (λ c, cls c) run → run ≠ [] → flush_run min rep run = rep) →
  ∀ s run, Forall (λ c, cls c) run →
    replace_runs_from cls min rep run s
    = match run with
      | [] => collapse_runs cls rep false s
      | _ :: _ => rep ++ collapse_runs cls rep true s
      end.
Proof.
  intros Hflush s. induction s as [|c s IH]; intros run Hrun; simpl.
  - destruct run; [done|]. rewrite Hflush by done. by rewrite app_nil_r.
  - destruct (cls c) eqn:Hc.
    + rewrite IH.
      * destruct run; simpl; [done|]. done.
      * apply Forall_app. split; [done|]. constructor; [by rewrite Hc|done].
    + rewrite IH by done. destruct run; [done|]. by rewrite Hflush.
Qed.

Lemma replace_runs_plus (cls : N → bool) (rep s : jsstring) :
  replace_runs cls 1 rep s = collapse_runs cls rep false s.
Proof.
  unfold replace_runs. rewrite replace_runs_from_collapse; [done| |done].
  intros [|c run] _ ?; [done|]. unfold flush_run. case_decide; [done|].
  simpl in *. lia.
Qed.

Lemma replace_runs_hyphens (s : jsstring) :
  replace_runs is_hyphen 2 (js "-") s = collapse_runs is_hyphen (js "-") false s.
Proof.
  unfold replace_runs. rewrite replace_runs_from_collapse; [done| |done].
  intros [|c run] Hrun ?; [done|]. unfold flush_run. case_decide; [done|].
  destruct run; simpl in *; [|lia].
  apply Forall_cons in Hrun as [Hc _]. unfold is_hyphen in Hc.
  apply Is_true_true, N.eqb_eq in Hc. by subst.
Qed.

Lemma collapse_runs_remove (cls : N → bool) (inside : bool) (s : jsstring) :
  collapse_runs cls [] inside s = filter (λ c, ¬ cls c) s.
Proof.
  revert inside. induction s as [|c s IH]; intros inside; [done|].
  rewrite filter_cons. cbn [collapse_runs].
  destruct (cls c); case_decide; simpl in *; try tauto.
  - destruct inside; apply IH.
  - by rewrite IH.
Qed.

Section slugify_facts.
Context `{Engine}.

(** The method chain of the source, step by step in the words of the
    specification. *)
Lemma slug_text_steps (s : jsstring) : slug_text s = spec_slug_text s.
Proof.
  unfold slug_text, spec_slug_text.
  rewrite replace_runs_hyphens, !replace_runs_plus, replace_each_remove.
  rewrite collapse_runs_remove. f_equal.
  apply list_filter_iff. intros c. unfold is_not_word_or_hyphen.
  destruct (is_word c), (is_hyphen c); simpl; tauto.
Qed.

Lemma collapse_hyphens_shape (inside : bool) (s : jsstring) :
  Forall (λ c, is_word c ∨ is_hyphen c) s →
  Forall (λ c, is_word c ∨ is_hyphen c) (collapse_runs is_hyphen (js "-") inside s)
  ∧ no_double_hyphen (collapse_runs is_hyphen (js "-") inside s)
  ∧ (inside → match collapse_runs is_hyphen (js "-") inside s with
              | c :: _ => ¬ is_hyphen c
              | [] => True
              end).
Proof.
  revert inside. induction s as [|c s IH]; intros inside Hs; [done|].
  apply Forall_cons in Hs as [Hc Hs]. cbn [collapse_runs].
  destruct (is_hyphen c) eqn:Hh.
  - destruct (IH true Hs) as (Hall & Hno & Hhead).
    destruct inside; [done|].
    change (js "-" ++ ?l) with (45%N :: l).
    split_and!; [constructor; [by right|done]| |done].
    destruct (collapse_runs is_hyphen (js "-") true s) as [|d out]; [done|].
    split; [|done]. intros [_ Hd]. by apply Hhead.
  - destruct (IH false Hs) as (Hall & Hno & _).
    split_and!; [constructor; [destruct Hc as [?|[]]; by left|done]|
                 |rewrite Hh; by intros _ []].
    destruct (collapse_runs is_hyphen (js "-") false s); [done|].
    split; [|done]. rewrite Hh. intros [[] _].
Qed.

Lemma spec_slug_text_shape (s : jsstring) :
  Forall (λ c, is_word c ∨ is_hyphen c) (spec_slug_text s)
  ∧ no_double_hyphen (spec_slug_text s).
Proof.
  unfold spec_slug_text.
  match goal with |- context [collapse_runs is_hyphen _ false ?l] =>
    destruct (collapse_hyphens_shape false l) as (? & ? & _); [|done] end.
  apply Forall_forall. intros c Hc. by apply list_elem_of_filter in Hc as [? _].
Qed.
End slugify_facts.

(** C2: slugify lowercases, trims, decomposes and strips the diacritics,
    turns each run of whitespace into one hyphen, spells [&] as [-and-],
    drops what is neither a word character nor a hyphen and collapses runs
    of hyphens, in this order; so its result holds only word characters and
    single hyphens. ["Hello & World! Déjà Vu"] gives
    ["hello-and-world-deja-vu"]; the empty string and [undefined] give the
    empty string. *)
Theorem slugify_steps_in_order :
  (∀ (E : Engine) (text : value),
      slugify text
      = if ToBoolean text then s <- ToString text;; Ok (spec_slug_text s) else Ok [])
  ∧ (∀ (E : Engine) (s : jsstring),
        Forall (λ c, is_word c ∨ is_hyphen c) (spec_slug_text s)
        ∧ no_double_hyphen (spec_slug_text s))
  ∧ @slugify latin1 (Str hello_world) = Ok (js "hello-and-world-deja-vu")
  ∧ (∀ E : Engine, slugify (Str []) = Ok [] ∧ slugify Undefined = Ok []).
Proof.
  split_and!.
  - intros E text. unfold slugify. destruct (ToBoolean text); [|done].
    destruct (ToString text); simpl; [|done]. by rewrite slug_text_steps.
  - intros E s. apply spec_slug_text_shape.
  - by vm_compute.
  - done.
Qed.

(** ** Reading JSON objects *)

Lemma prop_Obj_Some (m : gmap jsstring value) k x :
  m !! k = Some x → prop (Obj m) k = x.
Proof. intros Hk. simpl. by rewrite Hk. Qed.

Lemma prop_Obj_None (m : gmap jsstring value) k :
  m !! k = None → bool_decide (k ∈ Object_prototype_members) = false →
  prop (Obj m) k = Undefined.
Proof. intros Hk Hp. simpl. by rewrite Hk, Hp. Qed.

Lemma truthy_not_nullish (v : value) : ToBoolean v = true → nullish v = false.
Proof. by destruct v. Qed.

Lemma get_truthy (v : value) k : ToBoolean v = true → get v k = Ok (prop v k).
Proof. intros Hv. unfold get. by rewrite truthy_not_nullish. Qed.

(** ** Flattening typed properties *)

Section flatten_facts.
Context `{Engine}.

(** The conversion of a property never throws: the [try] catches. *)
Lemma mapNotionResponseToTextContent_returns (entry : jsstring * value) :
  ∃ v, mapNotionResponseToTextContent entry = Ok v.
Proof.
  destruct entry as [key property]. unfold mapNotionResponseToTextContent, try_catch.
  match goal with |- context [match ?b with Ok _ => _ | Throw _ => _ end] =>
    destruct b end; eauto.
Qed.

Lemma other_kind_fields (k : jsstring) (payload : value) :
  k ∉ reserved_property_kinds →
  let m : gmap jsstring value := <[js "type" := Str k]> {[ k := payload ]} in
  m !! js "select" = None ∧ m !! js "type" = Some (Str k) ∧ m !! k = Some payload.
Proof.
  intros Hk m. unfold reserved_property_kinds in Hk.
  assert (k ≠ js "type") by set_solver. assert (k ≠ js "select") by set_solver.
  subst m. split_and!.
  - rewrite lookup_insert_ne by done. by rewrite lookup_singleton_ne.
  - by rewrite lookup_insert_eq.
  - rewrite lookup_insert_ne by done. by rewrite lookup_singleton_eq.
Qed.

Lemma has_content_encode (key : jsstring) (p : PropertyValue) :
  well_kinded p →
  ∃ b, has_content (key, encode_property p) = Ok b
       ∧ (is_Some (spec_property_text p) → b = true).
Proof.
  intros Hp. destruct p as [kind runs|files|choice|k payload].
  - destruct runs as [|run runs]; [|exists true; split; [|done]].
    + exists false. split; [|by intros [??]]. by destruct kind; vm_compute.
    + by destruct kind, run; vm_compute.
  - destruct files as [|file files]; [|exists true; split; [|done]].
    + exists false. split; [|by intros [??]]. by vm_compute.
    + by destruct file; vm_compute.
  - destruct choice as [name|].
    + exists true. split; [|done]. by destruct name; vm_compute.
    + exists false. split; [|by intros [??]]. by vm_compute.
  - simpl in Hp. destruct (other_kind_fields k payload Hp) as (Hsel & Hty & Hk).
    unfold has_content, encode_property, get, ToPropertyKey. cbn [nullish bind].
    rewrite (prop_Obj_None _ _ Hsel) by done. cbn [ToBoolean].
    rewrite (prop_Obj_Some _ _ _ Hty). cbn [ToString bind].
    rewrite (prop_Obj_Some _ _ _ Hk).
    destruct (ToBoolean payload) eqn:Hpayload.
    + rewrite truthy_not_nullish by done. cbn [bind].
      eexists. split; [done|]. by intros [??].
    + eexists. split; [done|]. by intros [??].
Qed.

Lemma mapNotionResponseToTextContent_encode (key : jsstring) (p : PropertyValue) :
  well_kinded p →
  mapNotionResponseToTextContent (key, encode_property p)
  = Ok (from_option (λ s, Obj {[ key := Str s ]}) Undefined (spec_property_text p)).
Proof.
  intros Hp. destruct p as [kind runs|files|choice|k payload].
  - destruct runs as [|[s|] runs], kind; try by vm_compute.
    all: destruct s; by vm_compute.
  - destruct files as [|[u|] files]; try by vm_compute.
    destruct u; by vm_compute.
  - destruct choice as [[name|]|]; try by vm_compute.
    destruct name; by vm_compute.
  - simpl in Hp. destruct (other_kind_fields k payload Hp) as (Hsel & Hty & Hk).
    unfold mapNotionResponseToTextContent, encode_property, get. cbn [nullish bind].
    rewrite (prop_Obj_Some _ _ _ Hty). unfold is_string.
    unfold reserved_property_kinds in Hp.
    rewrite !bool_decide_eq_false_2 by set_solver. done.
Qed.
End flatten_facts.

(** ** The filter, map and reduce over a property bag *)

Lemma omap_keys (l : list (jsstring * value)) (c : jsstring → value → option value) k :
  k ∈ (omap (λ e, (e.1,.) <$> c e.1 e.2) l).*1 → k ∈ l.*1.
Proof.
  intros ([k' v] & -> & Hin)%list_elem_of_fmap.
  apply list_elem_of_omap in Hin as ([k'' p] & Hin & Hc). simpl in Hc.
  destruct (c k'' p); [|done]. injection Hc as Hk _.
  apply list_elem_of_fmap. eexists. split; [|exact Hin]. by simpl.
Qed.

Lemma omap_keys_NoDup (l : list (jsstring * value)) (c : jsstring → value → option value) :
  NoDup l.*1 → NoDup (omap (λ e, (e.1,.) <$> c e.1 e.2) l).*1.
Proof.
  induction l as [|[k p] l IH]; intros Hnd; [constructor|].
  rewrite fmap_cons in Hnd. apply NoDup_cons in Hnd as [Hk Hnd].
  cbn [omap list_omap fst snd]. destruct (c k p) as [v|]; cbn [fmap option_fmap option_map].
  - rewrite fmap_cons. apply NoDup_cons. split; [|by apply IH].
    intros Hin. by apply Hk, (omap_keys _ c).
  - by apply IH.
Qed.

(** Merging the converted entries one after the other gives the map of the
    converted values: the keys of a property bag are distinct. *)
Lemma foldl_spread_entries (l : list (jsstring * value))
    (c : jsstring → value → option value) (acc : gmap jsstring value) :
  NoDup l.*1 →
  foldl spread (Obj acc)
    ((λ e, from_option (λ v, Obj {[ e.1 := v ]}) Undefined (c e.1 e.2)) <$> l)
  = Obj (list_to_map (omap (λ e, (e.1,.) <$> c e.1 e.2) l) ∪ acc).
Proof.
  revert acc. induction l as [|[k p] l IH]; intros acc Hnd.
  - simpl. by rewrite (left_id_L ∅ (∪)).
  - rewrite fmap_cons in Hnd. apply NoDup_cons in Hnd as [Hk Hnd].
    cbn [fmap list_fmap foldl omap list_omap fst snd] in *.
    destruct (c k p) as [v|] eqn:Hc; cbn [from_option fmap option_fmap option_map].
    + unfold spread at 2. cbn [own_properties]. rewrite IH by done. f_equal.
      cbn [list_to_map foldr fst snd uncurry]. simpl.
      assert ((list_to_map (omap (λ e, (e.1,.) <$> c e.1 e.2) l)
               : gmap jsstring value) !! k = None) as Hnone.
      { apply not_elem_of_list_to_map_1. intros Hin. by apply Hk, (omap_keys _ c). }
      rewrite insert_union_singleton_l, (assoc_L (∪)). f_equal.
      apply map_union_comm. by apply map_disjoint_singleton_r.
    + unfold spread at 2. cbn [own_properties]. rewrite (left_id_L ∅ (∪)). by apply IH.
Qed.

Section flattenProperties_facts.
Context `{Engine}.

(** When the inclusion filter returns on every property, the flattened
    properties are the conversions of the properties it keeps. *)
Lemma flattenProperties_Obj (m : gmap jsstring value)
    (c : jsstring → value → option value) :
  (∀ k p, m !! k = Some p →
     ∃ b, has_content (k, p) = Ok b
          ∧ (if b
             then mapNotionResponseToTextContent (k, p)
                  = Ok (from_option (λ v, Obj {[ k := v ]}) Undefined (c k p))
             else c k p = None)) →
  flattenProperties (Obj m) = Ok (Obj (map_imap c m)).
Proof.
  intros Hm. unfold flattenProperties, Object_entries. cbn [nullish own_properties bind].
  set (keep := λ e : jsstring * value,
         match has_content e with Ok b => b | Throw _ => false end).
  rewrite (Array_filter_Ok _ keep); cycle 1.
  { intros [k p] Hin%elem_of_map_to_list. destruct (Hm k p Hin) as (b & Hb & _).
    unfold keep. by rewrite Hb. }
  cbn [bind].
  rewrite (Array_map_Ok _
    (λ e, from_option (λ v, Obj {[ e.1 := v ]}) Undefined (c e.1 e.2))); cycle 1.
  { intros [k p] [Hkeep Hin%elem_of_map_to_list]%list_elem_of_filter.
    destruct (Hm k p Hin) as (b & Hb & Hconv). unfold keep in Hkeep.
    rewrite Hb in Hkeep. destruct b; [done|]. by destruct Hkeep. }
  cbn [bind]. f_equal.
  assert (NoDup (filter (λ e, keep e) (map_to_list m)).*1) as Hnd.
  { eapply NoDup_fmap_fst.
    - intros k p1 p2 [_ H1%elem_of_map_to_list]%list_elem_of_filter
                     [_ H2%elem_of_map_to_list]%list_elem_of_filter. congruence.
    - apply NoDup_filter, NoDup_map_to_list. }
  rewrite (foldl_spread_entries _ c ∅ Hnd), (right_id_L ∅ (∪)). f_equal.
  apply map_eq. intros k. apply option_eq. intros v.
  rewrite map_lookup_imap. rewrite <-elem_of_list_to_map.
  - rewrite list_elem_of_omap. split.
    + intros ([k' p] & [_ Hin%elem_of_map_to_list]%list_elem_of_filter & Hc).
      simpl in Hc. destruct (c k' p) eqn:Hck; simplify_eq/=.
      rewrite Hin. simpl. done.
    + intros Hk. destruct (m !! k) as [p|] eqn:Hin; [|done]. cbn [mbind option_bind] in Hk.
      exists (k, p). cbn [fst snd]. rewrite Hk. split; [|done].
      apply list_elem_of_filter. split; [|by apply elem_of_map_to_list].
      destruct (Hm k p Hin) as (b & Hb & Hconv). unfold keep. rewrite Hb.
      destruct b; [done|congruence].
  - by apply omap_keys_NoDup.
Qed.

(** The flattened properties of a typed property bag. *)
Lemma flattenProperties_encode (props : gmap jsstring PropertyValue) :
  map_Forall (λ _, well_kinded) props →
  flattenProperties (Obj (encode_property <$> props))
  = Ok (Obj (Str <$> omap spec_property_text props)).
Proof.
  intros Hwf.
  rewrite (flattenProperties_Obj _
    (λ k p, match mapNotionResponseToTextContent (k, p) with
            | Ok v => own_properties v !! k
            | Throw _ => None
            end ≫= λ v, if has_content (k, p) is Ok true then Some v else None)).
  - f_equal. f_equal. apply map_eq. intros k.
    rewrite map_lookup_imap, !lookup_fmap, lookup_omap.
    destruct (props !! k) as [p|] eqn:Hk; [|done]. cbn [fmap option_fmap option_map mbind option_bind].
    specialize (Hwf k p Hk). simpl in Hwf.
    rewrite mapNotionResponseToTextContent_encode by done.
    destruct (has_content_encode k p Hwf) as (b & Hb & Hsome).
    destruct (spec_property_text p) as [s|]; cbn [from_option own_properties].
    + rewrite lookup_singleton_eq. cbn [mbind option_bind].
      rewrite Hb, Hsome; done.
    + by rewrite lookup_empty.
  - intros k p' Hk. rewrite lookup_fmap in Hk.
    destruct (props !! k) as [p|] eqn:Hp; [|done].
    cbn [fmap option_fmap option_map] in Hk. injection Hk as <-.
    specialize (Hwf k p Hp). simpl in Hwf.
    destruct (has_content_encode k p Hwf) as (b & Hb & Hsome).
    exists b. split; [done|]. rewrite Hb.
    rewrite mapNotionResponseToTextContent_encode by done.
    destruct b.
    + destruct (spec_property_text p) as [s|]; simpl; [|done].
      by rewrite lookup_singleton_eq.
    + destruct (spec_property_text p) as [s|]; simpl.
      * by rewrite lookup_singleton_eq.
      * by rewrite lookup_empty.
Qed.
End flattenProperties_facts.

(** ** Flattening typed posts *)

Section flatten_posts.
Context `{Engine}.

Lemma slugify_flattened_title (fields : gmap jsstring jsstring) :
  slugify (prop (Obj (Str <$> fields)) (js "Title")) = Ok (spec_slug (fields !! js "Title")).
Proof.
  cbn [prop]. rewrite lookup_fmap.
  destruct (fields !! js "Title") as [[|c s]|]; done.
Qed.

(** On a typed post the callback returns, with the record of the
    specification. *)
Lemma flatten_encode (p : RawPost) :
  map_Forall (λ _, well_kinded) (post_properties p) →
  flatten (encode_post p) = Ok (Obj (spec_flatten p)).
Proof.
  intros Hwf. unfold flatten, get, encode_post. cbn [nullish bind].
  rewrite (prop_Obj_Some _ (js "properties") (Obj (encode_property <$> post_properties p)))
    by done.
  rewrite flattenProperties_encode by done. cbn [bind nullish].
  rewrite (prop_Obj_Some _ (js "id") (Str (post_id p))) by done.
  rewrite (prop_Obj_Some _ (js "created_time") (Str (post_created_time p))) by done.
  rewrite (prop_Obj_Some _ (js "url") (Str (post_url p))) by done.
  rewrite slugify_flattened_title. done.
Qed.
End flatten_posts.

(** C3: on every typed post, flatten returns the fixed fields with the
    properties merged over them: a property is kept exactly when its value
    is not empty (a select with an option, a text or files property with a
    first entry) and is mapped to the content of its first text run, the URL
    of its first file or the name of its option, the empty string when that
    is absent; properties of any other kind are left out. The post with the
    properties Title, a title run ["My Post"], and Status, the option
    ["Published"], gets Title ["My Post"], Status ["Published"] and the slug
    ["my-post"]. *)
Theorem flatten_keeps_and_maps_by_kind :
  (∀ (E : Engine) (p : RawPost),
      map_Forall (λ _, well_kinded) (post_properties p) →
      flatten (encode_post p) = Ok (Obj (spec_flatten p)))
  ∧ (∀ (E : Engine) (p : RawPost) (k : jsstring),
        k ∉ [js "id"; js "created"; js "url"; js "slug"] →
        spec_flatten p !! k = Str <$> (post_properties p !! k ≫= spec_property_text))
  ∧ @flatten latin1 (encode_post (example_post "p1" "My Post"))
    = Ok (Obj (<[js "Title" := Str (js "My Post")]>
              (<[js "Status" := Str (js "Published")]>
              (<[js "slug" := Str (js "my-post")]>
              (<[js "id" := Str (js "p1")]>
              (<[js "created" := Str (js "2025-02-01T00:00:00.000Z")]>
                 {[ js "url" := Str (js "https://www.notion.so/p1") ]})))))).
Proof.
  split_and!.
  - intros E p Hwf. by apply flatten_encode.
  - intros E p k Hk. unfold spec_flatten.
    assert (k ≠ js "id" ∧ k ≠ js "created" ∧ k ≠ js "url" ∧ k ≠ js "slug")
      as (? & ? & ? & ?) by set_solver.
    rewrite lookup_union_l.
    + by rewrite lookup_fmap, lookup_omap.
    + rewrite !lookup_insert_ne by done. by rewrite lookup_singleton_ne.
  - by vm_compute.
Qed.

Lemma flatten_keeps_and_maps_by_kind_witness :
  ∃ flat, @flatten latin1 (encode_post (example_post "p1" "My Post")) = Ok (Obj flat)
          ∧ flat !! js "slug" = Some (Str (js "my-post")).
Proof.
  eexists. split.
  - apply (proj1 flatten_keeps_and_maps_by_kind latin1 (example_post "p1" "My Post")).
    apply map_Forall_insert_2; [exact I|]. apply map_Forall_singleton. exact I.
  - vm_compute. reflexivity.
Defined.

(** C9: the flattened properties are merged after the fixed fields, so a
    kept property named [slug], [id], [created] or [url] replaces the
    canonical value in the flattened post; a post titled ["My Post"] with a
    property [slug] of text ["custom"] gets the slug ["custom"], not
    ["my-post"]. *)
Theorem flattened_property_overrides_fixed_field :
  (∀ (E : Engine) (p : RawPost) (k : jsstring) (v : PropertyValue) (s : jsstring),
      map_Forall (λ _, well_kinded) (post_properties p) →
      k ∈ [js "slug"; js "id"; js "created"; js "url"] →
      post_properties p !! k = Some v →
      spec_property_text v = Some s →
      ∃ flat, flatten (encode_post p) = Ok (Obj flat) ∧ flat !! k = Some (Str s))
  ∧ (let p := {| post_id := js "p1"; post_created_time := js "2025"; post_url := js "u";
                 post_properties :=
                   <[js "Title" := PText kind_title [Some (js "My Post")]]>
                     {[ js "slug" := PText kind_rich_text [Some (js "custom")] ]} |} in
     ∃ flat, @flatten latin1 (encode_post p) = Ok (Obj flat)
             ∧ flat !! js "slug" = Some (Str (js "custom"))
             ∧ flat !! js "Title" = Some (Str (js "My Post"))
             ∧ @slugify latin1 (Str (js "My Post")) = Ok (js "my-post")).
Proof.
  split.
  - intros E p k v s Hwf _ Hk Hs. exists (spec_flatten p). split; [by apply flatten_encode|].
    unfold spec_flatten. apply lookup_union_Some_l.
    by rewrite lookup_fmap, lookup_omap, Hk; simpl; rewrite Hs.
  - eexists. split_and!; [by vm_compute|by vm_compute..].
Qed.

Lemma flattened_property_overrides_fixed_field_witness :
  ∃ flat, @flatten latin1
            (encode_post {| post_id := js "p1"; post_created_time := js "2025";
                            post_url := js "u";
                            post_properties :=
                              {[ js "id" := PSelect (Some (Some (js "other"))) ]} |})
          = Ok (Obj flat)
          ∧ flat !! js "id" = Some (Str (js "other")).
Proof.
  apply (proj1 flattened_property_overrides_fixed_field latin1 _ (js "id")
           (PSelect (Some (Some (js "other"))))).
  - apply map_Forall_singleton. exact I.
  - compute_done.
  - reflexivity.
  - reflexivity.
Defined.

(** C1 (evaluated where it fails): a property that came back as [null]
    makes the inclusion filter throw, outside the [try] of the property
    conversion; the callback throws, and the whole batch is lost along with
    the post, whatever the schedule. *)
Theorem null_property_aborts_the_batch :
  @flatten latin1 post_with_null_property = Throw TypeError
  ∧ (∃ v, @flatten latin1 (encode_post (example_post "p1" "My Post")) = Ok v)
  ∧ ∀ sched, @module_exports latin1 null_property_world sched
             = Ok (Obj {[ js "posts" := Arr [] ]}).
Proof.
  split_and!.
  - by vm_compute.
  - eexists. by vm_compute.
  - intros sched. by vm_compute.
Qed.

(** ** Rendering blocks *)

Lemma Array_filter_app {A} (f : A → result bool) (l1 l2 : list A) :
  Array_filter f (l1 ++ l2)
  = (ys1 <- Array_filter f l1;; ys2 <- Array_filter f l2;; Ok (ys1 ++ ys2)).
Proof.
  induction l1 as [|x l1 IH]; simpl.
  - by destruct (Array_filter f l2).
  - destruct (f x) as [b|]; simpl; [|done]. rewrite IH.
    destruct (Array_filter f l1); simpl; [|done].
    destruct (Array_filter f l2); simpl; [|done]. by destruct b.
Qed.

Lemma Array_map_fmap {A B C} (f : B → result C) (h : A → B) (l : list A) :
  Array_map f (h <$> l) = Array_map (f ∘ h) l.
Proof.
  induction l as [|x l IH]; [done|].
  rewrite fmap_cons. cbn [Array_map compose]. by rewrite IH.
Qed.

Lemma Array_join_strings (sep : jsstring) (ss : list jsstring) :
  Array_join sep (Str <$> ss) = Ok (join_strings sep ss).
Proof.
  unfold Array_join. rewrite Array_map_fmap.
  by rewrite (Array_map_Ok _ (λ s, s)), list_fmap_id.
Qed.

Section renderBlocks_facts.
Context `{Engine}.

(** [text.length > 0] on a string. *)
Lemma line_length_test (s : jsstring) :
  (len <- get (Str s) (js "length");; greater_than_zero len) = Ok (bool_decide (s ≠ [])).
Proof. by destruct s. Qed.

Lemma filter_lines (ss : list jsstring) :
  Array_filter (λ text, len <- get text (js "length");; greater_than_zero len) (Str <$> ss)
  = Ok (Str <$> filter (λ s, s ≠ []) ss).
Proof.
  induction ss as [|s ss IH]; [done|].
  rewrite fmap_cons, filter_cons. cbn [Array_filter].
  rewrite line_length_test, IH. cbn [bind].
  destruct (decide (s ≠ [])) as [Hs|Hs].
  - rewrite bool_decide_eq_true_2; [|exact Hs]. by rewrite fmap_cons.
  - rewrite bool_decide_eq_false_2; [|exact Hs]. done.
Qed.

(** The pipeline on lines that are strings. *)
Lemma renderBlocks_lines (blocks : list value) (lines : list jsstring) :
  Array_map block_to_line blocks = Ok (Str <$> lines) →
  renderBlocks blocks = Ok (join_strings newline (filter (λ s, s ≠ []) lines)).
Proof.
  intros Hlines. unfold renderBlocks. rewrite Hlines. cbn [bind].
  rewrite filter_lines. cbn [bind]. apply Array_join_strings.
Qed.

(** The conversion of a block never throws: the [try] catches. *)
Lemma block_to_line_returns (block : value) : ∃ line, block_to_line block = Ok line.
Proof. unfold block_to_line, try_catch. destruct (block_conversion block); eauto. Qed.

Lemma block_to_line_encode (b : Block) :
  well_kinded_block b → block_to_line (encode_block b) = Ok (Str (spec_line b)).
Proof.
  intros Hb. destruct b as [kind runs|url].
  - destruct kind as [| | | | |name].
    1-5: destruct runs as [|[[|c s]|] runs]; by vm_compute.
    simpl in Hb. unfold reserved_block_kinds in Hb.
    assert (name ≠ js "type" ∧ name ≠ []) as [Hty Hne] by set_solver.
    unfold block_to_line, block_conversion, encode_block, get, ToPropertyKey.
    cbn [BlockKind_name ToBoolean negb nullish bind].
    rewrite (prop_Obj_Some _ (js "type") (Str name)) by apply lookup_insert_eq.
    cbn [ToBoolean ToString bind nullish]. rewrite bool_decide_eq_false_2 by done.
    cbn [negb].
    rewrite (prop_Obj_Some _ name (Obj {[ js "text" := Arr (encode_run <$> runs) ]}));
      cycle 1.
    { rewrite lookup_insert_ne by done. apply lookup_singleton_eq. }
    cbn [ToBoolean negb]. unfold block_markup, is_string.
    rewrite !bool_decide_eq_false_2 by set_solver. cbn [bind].
    destruct runs as [|[[|c s]|] runs]; by vm_compute.
  - destruct url as [[|c u]|]; by vm_compute.
Qed.

Lemma renderBlocks_encode (bs : list Block) :
  Forall well_kinded_block bs →
  renderBlocks (encode_block <$> bs) = Ok (spec_renderBlocks bs).
Proof.
  intros Hbs. unfold spec_renderBlocks. apply renderBlocks_lines.
  rewrite Array_map_fmap, <-list_fmap_compose.
  apply Array_map_Ok. intros b Hb. apply block_to_line_encode.
  by eapply Forall_forall.
Qed.

(** A block whose line is empty leaves no trace in the body. *)
Lemma renderBlocks_drops_empty_line (before after : list value) (block : value) :
  block_to_line block = Ok (Str []) →
  renderBlocks (before ++ block :: after) = renderBlocks (before ++ after).
Proof.
  intros Hline. unfold renderBlocks.
  rewrite !Array_map_app. cbn [Array_map]. rewrite Hline. cbn [bind].
  destruct (Array_map block_to_line before) as [ys1|]; [|done].
  destruct (Array_map block_to_line after) as [ys2|]; [|done].
  cbn [bind]. rewrite !Array_filter_app. cbn [Array_filter].
  replace (len <- get (Str []) (js "length");; greater_than_zero len)
    with (Ok false : result bool) by done.
  cbn [bind]. by destruct (Array_filter _ ys1), (Array_filter _ ys2).
Qed.

Lemma first_run_text_without_text (blockContent : value) :
  ToBoolean blockContent = true →
  nullish (prop blockContent (js "text")) = true →
  first_run_text blockContent = Str [].
Proof.
  intros Hc Htext. unfold first_run_text.
  replace (get_opt blockContent (js "text")) with (prop blockContent (js "text"))
    by (unfold get_opt; by rewrite truthy_not_nullish).
  by destruct (prop blockContent (js "text")).
Qed.

Lemma degraded_block_line (block : value) :
  degraded_block block → block_to_line block = Ok (Str []).
Proof.
  unfold block_to_line, block_conversion.
  intros [b e He|b Hb|b Hb Hty|b k Hb Hk Hpayload|b k Hb Hty Hk Htext].
  - unfold block_conversion in He. by rewrite He.
  - by rewrite Hb.
  - rewrite Hb, get_truthy by done. cbn [negb bind]. by rewrite Hty.
  - rewrite Hb, get_truthy by done. cbn [negb bind].
    destruct (ToBoolean (prop b (js "type"))); [|done]. cbn [negb].
    rewrite Hk. cbn [bind]. rewrite get_truthy by done. cbn [bind].
    by rewrite Hpayload.
  - rewrite Hb, get_truthy by done. cbn [negb bind]. rewrite Hty.
    destruct (ToBoolean (Str k)); [|done]. cbn [negb ToPropertyKey ToString bind].
    rewrite get_truthy by done. cbn [bind].
    destruct (ToBoolean (prop b k)) eqn:Hpayload; [|done]. cbn [negb].
    unfold block_markup, is_string, recognized_block_kinds in *.
    rewrite !bool_decide_eq_false_2 by set_solver. cbn [bind].
    by rewrite first_run_text_without_text.
Qed.
End renderBlocks_facts.

(** C4: on every sequence of typed blocks the renderer gives the headings
    the prefixes [#], [##], [###], the bulleted items the prefix [- ], the
    paragraphs their first run and the images the line
    [![post block related](url)]; a line is prefix, space and text when both
    are non-empty and the text alone otherwise; empty lines are dropped and
    the rest joined by newlines. A heading ["Intro"], a paragraph
    ["Body text"] and an image at [http://x/y.png] render as three lines. *)
Theorem renderBlocks_typed_blocks :
  (∀ (E : Engine) (bs : list Block),
      Forall well_kinded_block bs →
      renderBlocks (encode_block <$> bs) = Ok (spec_renderBlocks bs))
  ∧ (∀ (E : Engine) (b : Block),
        well_kinded_block b → block_to_line (encode_block b) = Ok (Str (spec_line b)))
  ∧ @renderBlocks latin1 (encode_block <$> example_blocks)
    = Ok (js "# Intro" ++ newline ++ js "Body text" ++ newline
          ++ js "![post block related](http://x/y.png)").
Proof.
  split_and!.
  - intros E bs Hbs. by apply renderBlocks_encode.
  - intros E b Hb. by apply block_to_line_encode.
  - by vm_compute.
Qed.

Lemma renderBlocks_typed_blocks_witness :
  @renderBlocks latin1
    (encode_block <$> [TextBlock bulleted_list_item [Some (js "item")];
                       TextBlock paragraph []; TextBlock (other_kind (js "quote")) [None]])
  = Ok (js "-  item").
Proof.
  rewrite (proj1 renderBlocks_typed_blocks latin1).
  - vm_compute. reflexivity.
  - repeat constructor. compute_done.
Defined.

(** C7: a block whose conversion throws, which is absent, has no type or no
    payload, or has an unrecognized type and no text in its payload, becomes
    the empty line, and the body of the post is rendered as if the block
    were not there; the conversion of a block never throws. *)
Theorem degraded_block_is_dropped (E : Engine) (block : value)
    (before after : list value) :
  degraded_block block →
  block_to_line block = Ok (Str [])
  ∧ renderBlocks (before ++ block :: after) = renderBlocks (before ++ after)
  ∧ ∀ b, ∃ line, block_to_line b = Ok line.
Proof.
  intros Hblock. apply degraded_block_line in Hblock.
  split_and!; [done| |].
  - by apply renderBlocks_drops_empty_line.
  - intros b. apply block_to_line_returns.
Qed.

Example unrecognized_block_without_text :
  degraded_block (Obj (<[js "type" := Str (js "divider")]> {[ js "divider" := Obj ∅ ]})).
Proof. apply unrecognized_without_text with (k := js "divider"); compute_done. Qed.

Lemma degraded_block_is_dropped_witness :
  let block := Obj {[ js "type" := Obj {[ js "toString" := Num 1 ]} ]} in
  let body := encode_block (TextBlock paragraph [Some (js "Body text")]) in
  block_to_line block = Ok (Str [])
  ∧ @renderBlocks latin1 ([body] ++ block :: [body]) = renderBlocks ([body] ++ [body]).
Proof.
  intros block body.
  destruct (degraded_block_is_dropped latin1 block [body] [body]) as (Hline & Hbody & _).
  - apply conversion_fails with (e := TypeError). vm_compute. reflexivity.
  - split; [exact Hline|exact Hbody].
Defined.

(** C10: an image block whose payload is present always yields a line, the
    markup of an image around its URL; without a URL the line is
    [![post block related]()], which is not empty and so passes the filter,
    whereas a paragraph with empty content leaves nothing. *)
Theorem image_block_always_emits_line (E : Engine) (block payload : value) (url : jsstring) :
  ToBoolean block = true →
  prop block (js "type") = Str (js "image") →
  prop block (js "image") = payload →
  ToBoolean payload = true →
  (ToBoolean (get_opt (get_opt payload (js "file")) (js "url")) = false ∧ url = []
   ∨ get_opt (get_opt payload (js "file")) (js "url") = Str url) →
  block_to_line block = Ok (Str (image_line url))
  ∧ image_line url ≠ []
  ∧ renderBlocks [block] = Ok (image_line url)
  ∧ image_line [] = js "![post block related]()"
  ∧ renderBlocks [encode_block (TextBlock paragraph [Some []])] = Ok [].
Proof.
  intros Hblock Htype Hpayload Htruthy Hurl.
  assert (block_to_line block = Ok (Str (image_line url))) as Hline.
  { unfold block_to_line, block_conversion.
    rewrite Hblock, get_truthy by done. cbn [negb bind]. rewrite Htype.
    change (ToBoolean (Str (js "image"))) with true.
    cbn [negb ToPropertyKey ToString bind]. rewrite get_truthy by done.
    cbn [bind]. rewrite Hpayload, Htruthy. cbn [negb].
    change (block_markup (Str (js "image")) payload)
      with (u <- ToString (or_else (get_opt (get_opt payload (js "file")) (js "url")) (Str []));;
            Ok (([] : jsstring), Str (image_line u))).
    destruct Hurl as [[Habsent ->]|Hurl].
    - unfold or_else. by rewrite Habsent.
    - rewrite Hurl. by destruct url. }
  split_and!; [done|by destruct url| |done|by vm_compute].
  rewrite (renderBlocks_lines [block] [image_line url]).
  - rewrite filter_cons_True by (by destruct url). done.
  - cbn [Array_map]. by rewrite Hline.
Qed.

Lemma image_block_always_emits_line_witness :
  @renderBlocks latin1 [Obj (<[js "type" := Str (js "image")]> {[ js "image" := Obj ∅ ]})]
  = Ok (js "![post block related]()").
Proof.
  apply (image_block_always_emits_line latin1 _ (Obj ∅) []).
  - reflexivity.
  - vm_compute. reflexivity.
  - vm_compute. reflexivity.
  - reflexivity.
  - left. split; reflexivity.
Defined.

(** ** Resolving and querying the data source *)

Lemma prop_Arr_length (l : list value) : prop (Arr l) (js "length") = Num (Z.of_nat (length l)).
Proof. done. Qed.

Lemma prop_Arr_first (x : value) (l : list value) : prop (Arr (x :: l)) (js "0") = x.
Proof. done. Qed.

(** C6: getDataSourceId fetches the database and returns the id of the
    first data source it lists; when the database has no [data_sources]
    field, or an empty one, it throws the error "No data sources found in
    database" and returns nothing. *)
Theorem getDataSourceId_first_or_error (E : Engine) (w : World)
    (response : gmap jsstring value) :
  Cache w (ROOT_NOTION_API ++ js "/databases/" ++ env_text (DATABASE_ID w)) = Ok (Obj response) →
  (∀ first rest,
      response !! js "data_sources" = Some (Arr (first :: rest)) →
      getDataSourceId w = get first (js "id"))
  ∧ (∀ source rest id,
        response !! js "data_sources" = Some (Arr (Obj source :: rest)) →
        source !! js "id" = Some id →
        getDataSourceId w = Ok id)
  ∧ (response !! js "data_sources" = None ∨ response !! js "data_sources" = Some (Arr []) →
     getDataSourceId w = Throw NoDataSourceError).
Proof.
  intros Hfetch.
  assert (∀ first rest,
      response !! js "data_sources" = Some (Arr (first :: rest)) →
      getDataSourceId w = get first (js "id")) as Hfirst.
  { intros first rest Hsources. unfold getDataSourceId. rewrite Hfetch.
    unfold get at 1. cbn [nullish bind].
    rewrite (prop_Obj_Some _ _ _ Hsources). cbn [ToBoolean].
    unfold get at 1. cbn [nullish bind]. rewrite prop_Arr_length.
    cbn [greater_than_zero length bind].
    replace (0 <? Z.of_nat (S (length rest)))%Z with true by (symmetry; apply Z.ltb_lt; lia).
    unfold get at 1. cbn [nullish bind]. rewrite prop_Arr_first.
    by destruct (get first (js "id")). }
  split_and!; [done| |].
  - intros source rest id Hsources Hid. rewrite (Hfirst _ _ Hsources).
    unfold get. cbn [nullish]. by rewrite (prop_Obj_Some _ _ _ Hid).
  - intros Hnone. unfold getDataSourceId. rewrite Hfetch.
    unfold get at 1. cbn [nullish bind]. destruct Hnone as [Hnone|Hnone].
    + by rewrite (prop_Obj_None _ _ Hnone).
    + by rewrite (prop_Obj_Some _ _ _ Hnone).
Qed.

Lemma getDataSourceId_first_or_error_witness :
  @getDataSourceId latin1 two_posts_world = Ok (Str (js "ds"))
  ∧ @getDataSourceId latin1 no_data_source_world = Throw NoDataSourceError.
Proof.
  split.
  - eapply (getDataSourceId_first_or_error latin1 two_posts_world); reflexivity.
  - eapply (getDataSourceId_first_or_error latin1 no_data_source_world);
      [reflexivity|right; reflexivity].
Defined.

Lemma settle_no_tasks (events : list nat) (values : list value) :
  settle [] events values = Ok values.
Proof. induction events as [|i events IH]; [done|]. simpl. apply IH. Qed.

Section pipeline_facts.
Context `{Engine}.

(** getDatabaseData never throws: its [catch] returns the empty list. *)
Lemma getDatabaseData_returns (w : World) : ∃ v, getDatabaseData w = Ok v.
Proof.
  unfold getDatabaseData, try_catch.
  match goal with |- context [match ?b with Ok _ => _ | Throw _ => _ end] =>
    destruct b end; eauto.
Qed.

(** The exported function never throws: its [catch] returns no posts. *)
Lemma module_exports_returns (w : World) (sched : list nat) :
  ∃ v, module_exports w sched = Ok v.
Proof.
  unfold module_exports, try_catch.
  match goal with |- context [match ?b with Ok _ => _ | Throw _ => _ end] =>
    destruct b end; eauto.
Qed.

Lemma getDatabaseData_retrieval_fails (w : World) :
  retrieval_fails w → getDatabaseData w = Ok (Arr []).
Proof.
  unfold getDatabaseData.
  intros [[e He]|(dataSourceId & id & e & Hsource & Hid & Hquery)].
  - by rewrite He.
  - rewrite Hsource. cbn [bind]. rewrite Hid. cbn [bind].
    unfold query_url in Hquery. by rewrite Hquery.
Qed.

Lemma module_exports_no_posts (w : World) (sched : list nat) :
  getDatabaseData w = Ok (Arr []) →
  module_exports w sched = Ok (Obj {[ js "posts" := Arr [] ]}).
Proof.
  intros Hdata. unfold module_exports, Promise_all. rewrite Hdata.
  cbn [bind array_receiver Array_map fmap list_fmap length].
  by rewrite settle_no_tasks.
Qed.
End pipeline_facts.

(** C5: when the retrieval of the posts fails, in the resolution of the
    data source or in the query request, getDatabaseData returns the empty
    list and the exported function resolves to [{posts: []}]; neither of the
    two ever throws. *)
Theorem retrieval_failure_gives_no_posts (E : Engine) (w : World) (sched : list nat) :
  retrieval_fails w →
  getDatabaseData w = Ok (Arr [])
  ∧ module_exports w sched = Ok (Obj {[ js "posts" := Arr [] ]})
  ∧ (∀ w' sched', ∃ v, module_exports w' sched' = Ok v)
  ∧ (∀ w', ∃ v, getDatabaseData w' = Ok v).
Proof.
  intros Hfails. apply getDatabaseData_retrieval_fails in Hfails.
  split_and!; [done|by apply module_exports_no_posts| |].
  - intros w' sched'. apply module_exports_returns.
  - intros w'. apply getDatabaseData_returns.
Qed.

Lemma retrieval_failure_gives_no_posts_witness :
  @module_exports latin1 no_data_source_world [2; 0] = Ok (Obj {[ js "posts" := Arr [] ]})
  ∧ @module_exports latin1 failing_query_world [] = Ok (Obj {[ js "posts" := Arr [] ]}).
Proof.
  split.
  - apply (retrieval_failure_gives_no_posts latin1 no_data_source_world [2; 0]).
    left. exists NoDataSourceError. reflexivity.
  - apply (retrieval_failure_gives_no_posts latin1 failing_query_world []).
    right. exists (Str (js "ds")), (js "ds"), (Error "request failed").
    split_and!; reflexivity.
Defined.

(** ** Promise.all collects by position *)

Lemma Array_map_tasks {A} (f : A → result value) (l : list A) (ys : list value) :
  Array_map f l = Ok ys → f <$> l = Ok <$> ys.
Proof.
  revert ys. induction l as [|x l IH]; intros ys; simpl.
  - by intros [= <-].
  - destruct (f x) as [y|]; simpl; [|done].
    destruct (Array_map f l) as [ys'|]; simpl; [|done].
    intros [= <-]. simpl. f_equal. by apply IH.
Qed.

(** Whatever the order of the events, each fulfilled task ends in the slot
    of its index. *)
Lemma settle_fulfilled (vs : list value) (events : list nat) (values : list value) :
  length values = length vs →
  ∃ values', settle (Ok <$> vs) events values = Ok values'
             ∧ length values' = length vs
             ∧ (∀ i, i ∈ events → values' !! i = vs !! i)
             ∧ (∀ i, values !! i = vs !! i → values' !! i = vs !! i).
Proof.
  revert values. induction events as [|i events IH]; intros values Hlen.
  - exists values. split_and!; [done..| |done]. by intros i ?%elem_of_nil.
  - cbn [settle]. rewrite list_lookup_fmap.
    destruct (vs !! i) as [v|] eqn:Hi; cbn [fmap option_fmap option_map].
    + destruct (IH (<[i:=v]> values)) as (values' & Hrun & Hlen' & Hev & Hkeep).
      { by rewrite length_insert. }
      assert (values' !! i = vs !! i) as Hslot.
      { apply Hkeep. rewrite Hi. apply list_lookup_insert_eq.
        rewrite Hlen. by eapply lookup_lt_Some. }
      exists values'. split_and!; [done..| |].
      * intros j [->|Hj]%elem_of_cons; [done|by apply Hev].
      * intros j Hj. destruct (decide (i = j)) as [->|Hne]; [done|].
        apply Hkeep. by rewrite list_lookup_insert_ne.
    + destruct (IH values Hlen) as (values' & Hrun & Hlen' & Hev & Hkeep).
      exists values'. split_and!; [done..| |done].
      intros j [->|Hj]%elem_of_cons; [|by apply Hev].
      rewrite Hi. apply lookup_ge_None. rewrite Hlen'. by apply lookup_ge_None.
Qed.

Lemma Promise_all_positional (sched : list nat) (vs : list value) :
  Promise_all sched (Ok <$> vs) = Ok vs.
Proof.
  unfold Promise_all. rewrite length_fmap.
  destruct (settle_fulfilled vs (sched ++ seq 0 (length vs)) (replicate (length vs) Undefined))
    as (values' & -> & Hlen & Hev & _); [by rewrite length_replicate|].
  f_equal. apply list_eq. intros i.
  destruct (decide (i < length vs)) as [Hi|Hi].
  - apply Hev, elem_of_app. right. apply elem_of_seq. lia.
  - rewrite !lookup_ge_None_2 by lia. done.
Qed.

Section order_facts.
Context `{Engine}.

Lemma render_post_extends (w : World) (flat out : value) :
  render_post w flat = Ok out →
  ∃ body, out = Obj (<[js "block" := Str body]> (own_properties flat)).
Proof.
  unfold render_post. intros Hout.
  repeat match type of Hout with
         | bind ?r _ = _ => destruct r; cbn [bind] in Hout; [|done]
         end.
  injection Hout as <-. eauto.
Qed.
End order_facts.

(** C8: when every post flattens and renders, the exported function
    resolves, under every completion order of the block renderings, to the
    posts in the order of the query result: the i-th output is the i-th raw
    post, flattened and extended with its rendered body. *)
Theorem posts_keep_query_order (E : Engine) (w : World) (sched : list nat)
    (raws flats outs : list value) :
  getDatabaseData w = Ok (Arr raws) →
  Array_map flatten raws = Ok flats →
  Array_map (render_post w) flats = Ok outs →
  module_exports w sched = Ok (Obj {[ js "posts" := Arr outs ]})
  ∧ length outs = length raws
  ∧ ∀ i raw, raws !! i = Some raw →
      ∃ flat body, flatten raw = Ok flat
                   ∧ outs !! i = Some (Obj (<[js "block" := Str body]> (own_properties flat))).
Proof.
  intros Hdata Hflats Houts. split_and!.
  - unfold module_exports. rewrite Hdata. cbn [bind array_receiver].
    rewrite Hflats. cbn [bind].
    by rewrite (Array_map_tasks _ _ _ Houts), Promise_all_positional.
  - apply Array_map_length in Hflats, Houts. congruence.
  - intros i raw Hraw.
    destruct (Array_map_lookup _ _ _ _ _ Hflats Hraw) as (flat & Hflat & Hi).
    destruct (Array_map_lookup _ _ _ _ _ Houts Hi) as (out & Hout & Ho).
    apply render_post_extends in Hout as [body ->]. eauto.
Qed.

Lemma posts_keep_query_order_witness :
  ∃ first second,
    @module_exports latin1 two_posts_world [1; 0]
    = Ok (Obj {[ js "posts" := Arr [first; second] ]})
    ∧ prop first (js "id") = Str (js "p1") ∧ prop second (js "id") = Str (js "p2").
Proof.
  eexists _, _. split.
  - eapply (posts_keep_query_order latin1 two_posts_world [1; 0]).
    + vm_compute. reflexivity.
    + vm_compute. reflexivity.
    + vm_compute. reflexivity.
  - split; vm_compute; reflexivity.
Defined.

(** * Further properties of the module *)

(** ** What can be thrown *)

(** Every error of a string conversion is a TypeError. *)
Lemma ToString_error (v : value) (e : exn) : ToString v = Throw e → e = TypeError.
Proof.
  revert v e. fix IH 1. intros [| |[]|n|s|l|m|name] e; cbn [ToString]; try done.
  - match goal with |- bind ?r _ = _ → _ => assert (∀ e', r = Throw e' → e' = TypeError) as Hl end.
    { induction l as [|x l IHl]; intros e'; [done|].
      destruct (nullish x); cbn [bind].
      - destruct ((fix elements (l : list value) : result (list jsstring) := _) l) eqn:Hr;
          cbn [bind]; [done|]. intros [= <-]. by apply IHl.
      - destruct (ToString x) eqn:Hx; cbn [bind].
        + destruct ((fix elements (l : list value) : result (list jsstring) := _) l) eqn:Hr;
            cbn [bind]; [done|]. intros [= <-]. by apply IHl.
        + intros [= <-]. by apply (IH x). }
    match goal with |- bind ?r _ = _ → _ => destruct r eqn:Hr end; cbn [bind]; [done|].
    intros [= <-]. by apply Hl.
  - by case_bool_decide; [intros [= <-]|].
  - by repeat case_bool_decide.
Qed.

Lemma get_error (v : value) k (e : exn) : get v k = Throw e → e = TypeError.
Proof. unfold get. destruct (nullish v); [by intros [= <-]|done]. Qed.

Section throw_facts.
Context `{Engine}.

Lemma has_content_error (entry : jsstring * value) (e : exn) :
  has_content entry = Throw e → e = TypeError.
Proof.
  destruct entry as [key property]. unfold has_content, ToPropertyKey.
  repeat match goal with
         | |- bind ?r _ = _ → _ =>
             let Hr := fresh "Hr" in
             destruct r eqn:Hr; cbn [bind];
             [|intros [= <-]; first [by eapply get_error|by eapply ToString_error]]
         | |- (if ?b then _ else _) = _ → _ => destruct b
         end; done.
Qed.

Lemma Array_filter_throws {A} (f : A → result bool) (l : list A) :
  (∀ x e, f x = Throw e → e = TypeError) →
  Exists (λ x, ∃ e, f x = Throw e) l → Array_filter f l = Throw TypeError.
Proof.
  intros Herr. induction l as [|x l IH]; intros Hex; [by apply Exists_nil in Hex|].
  cbn [Array_filter]. destruct (f x) as [b|e] eqn:Hx; cbn [bind].
  - apply Exists_cons in Hex as [[e He]|Hex]; [congruence|].
    by rewrite IH.
  - by rewrite (Herr _ _ Hx).
Qed.

Lemma Array_map_throws {A B} (f : A → result B) (l : list A) (x : A) (e : exn) :
  x ∈ l → f x = Throw e → ∃ e', Array_map f l = Throw e'.
Proof.
  intros Hin Hx. induction l as [|y l IH]; [by apply elem_of_nil in Hin|].
  cbn [Array_map]. destruct (f y) as [z|] eqn:Hy; cbn [bind]; [|eauto].
  apply elem_of_cons in Hin as [->|Hin]; [congruence|].
  destruct (IH Hin) as [e' ->]. eauto.
Qed.

(** Each element either lets the callback return or makes it throw. *)
Lemma returns_or_throws {A B} (f : A → result B) (l : list A) :
  Forall (λ x, ∃ y, f x = Ok y) l ∨ Exists (λ x, ∃ e, f x = Throw e) l.
Proof.
  induction l as [|x l [IH|IH]].
  - left. constructor.
  - destruct (f x) as [y|e] eqn:Hx.
    + left. constructor; eauto.
    + right. apply Exists_cons. left. eauto.
  - right. apply Exists_cons. by right.
Qed.

Lemma or_else_not_nullish (a : value) : nullish (or_else a (Str [])) = false.
Proof. unfold or_else. destruct (ToBoolean a) eqn:Ha; [by apply truthy_not_nullish|done]. Qed.

Lemma is_filled_array_returns (payload : value) :
  ∃ b, is_filled_array payload = Ok b
       ∧ (b = true → ∃ first, get payload (js "0") = Ok first).
Proof.
  unfold is_filled_array.
  destruct payload as [| |b|n|s|l|m|name]; cbn [ToBoolean Array_isArray andb].
  1-5, 7-8: exists false; split; [by rewrite ?andb_false_r|done].
  unfold get. cbn [nullish bind]. rewrite prop_Arr_length.
  cbn [greater_than_zero]. eauto.
Qed.

Lemma is_string_Str (v : value) (s : jsstring) : is_string v s = true → v = Str s.
Proof. destruct v; try done. simpl. by intros ->%bool_decide_eq_true. Qed.

(** The conversion of a property returns [undefined] or an object with the
    one field of the property's name, whose value is neither [undefined] nor
    [null]. *)
Lemma mapNotionResponseToTextContent_shape (key : jsstring) (property : value) :
  ∃ o : option value,
    mapNotionResponseToTextContent (key, property)
    = Ok (from_option (λ v, Obj {[ key := v ]}) Undefined o)
    ∧ ∀ v, o = Some v → nullish v = false.
Proof.
  unfold mapNotionResponseToTextContent, get.
  destruct (nullish property) eqn:Hnull; cbn [bind try_catch].
  { by exists None. }
  set (type := prop property (js "type")).
  assert (∀ s, is_string type s = true →
            (k <- ToPropertyKey type;; payload <- Ok (prop property k);; Ok payload)
            = Ok (prop property s)) as Hkey.
  { intros s ->%is_string_Str. done. }
  destruct (is_string type (js "rich_text") || is_string type (js "text")
            || is_string type (js "title")) eqn:Htext.
  - assert (∃ s, type = Str s) as [s ->].
    { destruct type; try done. eauto. }
    cbn [ToPropertyKey ToString bind].
    destruct (is_filled_array_returns (prop property s)) as (b & -> & Hfirst).
    cbn [bind]. destruct b; [|by exists None].
    destruct (Hfirst eq_refl) as [first Hget]. unfold get in Hget. rewrite Hget.
    cbn [bind try_catch]. exists (Some (first_text_content first)). split; [done|].
    intros v [= <-]. apply or_else_not_nullish.
  - destruct (is_string type (js "files")) eqn:Hfiles.
    + apply is_string_Str in Hfiles as ->. cbn [ToPropertyKey ToString bind].
      destruct (is_filled_array_returns (prop property (js "files"))) as (b & -> & Hfirst).
      cbn [bind]. destruct b; [|by exists None].
      destruct (Hfirst eq_refl) as [first Hget]. unfold get in Hget. rewrite Hget.
      cbn [bind try_catch]. exists (Some (first_file_url first)). split; [done|].
      intros v [= <-]. apply or_else_not_nullish.
    + destruct (is_string type (js "select")) eqn:Hselect; [|by exists None].
      apply is_string_Str in Hselect as ->. cbn [ToPropertyKey ToString bind].
      destruct (ToBoolean (prop property (js "select"))); [|by exists None].
      cbn [try_catch]. eexists (Some _). split; [done|].
      intros v [= <-]. apply or_else_not_nullish.
Qed.
End throw_facts.

(** X1: the conversion of a property never throws; it returns [undefined],
    always so for a property that is itself [undefined] or [null], or an
    object whose one field is named after the property and holds a value
    that is neither [undefined] nor [null]. *)
Theorem property_conversion_gives_one_field (E : Engine) (key : jsstring) (property : value) :
  ∃ o : option value,
    mapNotionResponseToTextContent (key, property)
    = Ok (from_option (λ v, Obj {[ key := v ]}) Undefined o)
    ∧ (∀ v, o = Some v → nullish v = false ∧ nullish property = false).
Proof.
  destruct (mapNotionResponseToTextContent_shape key property) as (o & Hshape & Hvalue).
  exists o. split; [done|]. intros v ->. split; [by apply Hvalue|].
  destruct (nullish property) eqn:Hnull; [|done].
  unfold mapNotionResponseToTextContent, get in Hshape. by rewrite Hnull in Hshape.
Qed.

(** ** The flattened properties do not depend on the order of the entries *)

Section entries_facts.
Context `{Engine}.

Lemma flattenProperties_entries (properties : value) :
  flattenProperties properties
  = (entries <- Object_entries properties;; flattenEntries entries).
Proof. done. Qed.

(** When the filter returns on every entry, the flattened properties hold
    exactly the fields of the conversions of the entries it keeps. *)
Lemma flattenEntries_returns (l : list (jsstring * value)) :
  NoDup l.*1 →
  Forall (λ e, ∃ b, has_content e = Ok b) l →
  ∃ m : gmap jsstring value,
    flattenEntries l = Ok (Obj m)
    ∧ ∀ k v, m !! k = Some v
             ↔ ∃ p, (k, p) ∈ l ∧ has_content (k, p) = Ok true
                    ∧ mapNotionResponseToTextContent (k, p) = Ok (Obj {[ k := v ]}).
Proof.
  intros Hnd Hret. unfold flattenEntries.
  set (keep := λ e : jsstring * value,
         match has_content e with Ok b => b | Throw _ => false end).
  set (c := λ (k : jsstring) (p : value),
         match mapNotionResponseToTextContent (k, p) with
         | Ok v => own_properties v !! k
         | Throw _ => None
         end).
  assert (∀ k p, mapNotionResponseToTextContent (k, p)
                 = Ok (from_option (λ v, Obj {[ k := v ]}) Undefined (c k p))) as Hc.
  { intros k p. unfold c.
    destruct (mapNotionResponseToTextContent_shape k p) as ([v|] & -> & _);
      cbn [from_option own_properties].
    - by rewrite lookup_singleton_eq.
    - by rewrite lookup_empty. }
  rewrite (Array_filter_Ok _ keep); cycle 1.
  { intros e He. rewrite Forall_forall in Hret. destruct (Hret e He) as [b Hb].
    unfold keep. by rewrite Hb. }
  cbn [bind].
  rewrite (Array_map_Ok _
    (λ e, from_option (λ v, Obj {[ e.1 := v ]}) Undefined (c e.1 e.2))); cycle 1.
  { intros [k p] _. apply Hc. }
  cbn [bind].
  assert (NoDup (filter (λ e, keep e) l).*1) as Hkept.
  { eapply sublist_NoDup; [exact Hnd|]. apply fmap_sublist, sublist_filter. }
  rewrite (foldl_spread_entries _ c ∅ Hkept), (right_id_L ∅ (∪)).
  eexists. split; [done|]. intros k v.
  rewrite <-elem_of_list_to_map by by apply omap_keys_NoDup.
  rewrite list_elem_of_omap. split.
  - intros ([k' p] & [Hkeep Hin]%list_elem_of_filter & Hh). cbn [fst snd] in Hh.
    destruct (c k' p) as [v'|] eqn:Hv; [|done]. injection Hh as -> ->.
    exists p. split_and!; [done| |by rewrite Hc, Hv].
    unfold keep in Hkeep. destruct (has_content (k, p)) as [[]|]; done.
  - intros (p & Hin & Hkeep & Hconv). exists (k, p). split.
    + apply list_elem_of_filter. split; [|done]. unfold keep. by rewrite Hkeep.
    + cbn [fst snd]. unfold c. rewrite Hconv. cbn [own_properties].
      by rewrite lookup_singleton_eq.
Qed.

Lemma flattenEntries_throws (l : list (jsstring * value)) :
  Exists (λ e, ∃ err, has_content e = Throw err) l →
  flattenEntries l = Throw TypeError.
Proof.
  intros Hex. unfold flattenEntries.
  rewrite (Array_filter_throws has_content l); [done| |done].
  intros x e. apply has_content_error.
Qed.

Lemma flattenEntries_Permutation (l l' : list (jsstring * value)) :
  l ≡ₚ l' → NoDup l.*1 → flattenEntries l = flattenEntries l'.
Proof.
  intros Hperm Hnd.
  destruct (returns_or_throws has_content l) as [Hret|Hthrow].
  - destruct (flattenEntries_returns l Hnd Hret) as (m & -> & Hm).
    destruct (flattenEntries_returns l') as (m' & -> & Hm').
    { by rewrite <-Hperm. }
    { by rewrite <-Hperm. }
    do 2 f_equal. apply map_eq. intros k. apply option_eq. intros v.
    rewrite Hm, Hm'. by setoid_rewrite Hperm.
  - rewrite (flattenEntries_throws l Hthrow).
    rewrite flattenEntries_throws; [done|]. by rewrite <-Hperm.
Qed.

(** A property that is [undefined] or [null] makes the chain throw. *)
Lemma flattenProperties_nullish_property (m : gmap jsstring value) k p :
  m !! k = Some p → nullish p = true → flattenProperties (Obj m) = Throw TypeError.
Proof.
  intros Hk Hp. rewrite flattenProperties_entries. unfold Object_entries.
  cbn [nullish own_properties bind]. apply flattenEntries_throws.
  apply Exists_exists. exists (k, p). split; [by apply elem_of_map_to_list|].
  exists TypeError. unfold has_content, get. by rewrite Hp.
Qed.

(** A flattened post is an object that has the four fixed fields. *)
Lemma flatten_fixed_fields (post out : value) :
  flatten post = Ok out →
  ∃ m : gmap jsstring value, out = Obj m ∧ Forall (λ k, is_Some (m !! k)) fixed_fields.
Proof.
  unfold flatten. intros Hout.
  repeat match type of Hout with
         | bind ?r _ = _ => destruct r; cbn [bind] in Hout; [|done]
         end.
  injection Hout as <-. eexists. split; [done|].
  unfold fixed_fields. repeat apply Forall_cons_2; [..|apply Forall_nil_2].
  all: apply lookup_union_is_Some; right.
  - by rewrite lookup_insert_eq.
  - rewrite lookup_insert_ne by done. by rewrite lookup_insert_eq.
  - rewrite !lookup_insert_ne by done. by rewrite lookup_insert_eq.
  - rewrite !lookup_insert_ne by done. by rewrite lookup_singleton_eq.
Qed.

End entries_facts.

(** X2: the flattened properties do not depend on the order in which the
    entries of the property bag are visited: on two listings of the same
    entries, of distinct keys, the filter-map-reduce chain gives the same
    object or throws the same error. *)
Theorem flattened_properties_ignore_entry_order (E : Engine)
    (entries entries' : list (jsstring * value)) :
  entries ≡ₚ entries' → NoDup entries.*1 →
  flattenEntries entries = flattenEntries entries'
  ∧ ∀ properties, flattenProperties properties
                  = (listed <- Object_entries properties;; flattenEntries listed).
Proof.
  intros Hperm Hnd. split; [by apply flattenEntries_Permutation|].
  intros properties. apply flattenProperties_entries.
Qed.

Lemma flattened_properties_ignore_entry_order_witness :
  let title := encode_property (PText kind_title [Some (js "My Post")]) in
  let status := encode_property (PSelect (Some (Some (js "Published")))) in
  @flattenEntries latin1 [(js "Title", title); (js "Status", status)]
  = flattenEntries [(js "Status", status); (js "Title", title)].
Proof.
  intros title status.
  apply (flattened_properties_ignore_entry_order latin1).
  - apply perm_swap.
  - compute_done.
Defined.

(** X3: a property value that is [undefined] or [null] makes flatten throw
    a TypeError, whatever the other properties of the post are. *)
Theorem flatten_throws_on_nullish_property (E : Engine) (post : value)
    (m : gmap jsstring value) (k : jsstring) (p : value) :
  nullish post = false →
  prop post (js "properties") = Obj m →
  m !! k = Some p →
  nullish p = true →
  flatten post = Throw TypeError.
Proof.
  intros Hpost Hprops Hk Hp. unfold flatten, get. rewrite Hpost. cbn [bind].
  by rewrite Hprops, (flattenProperties_nullish_property m k p).
Qed.

Lemma flatten_throws_on_nullish_property_witness :
  @flatten latin1 post_with_null_property = Throw TypeError.
Proof.
  eapply (flatten_throws_on_nullish_property latin1 _ _ (js "Cover") Null).
  - reflexivity.
  - vm_compute. reflexivity.
  - vm_compute. reflexivity.
  - reflexivity.
Defined.

(** X4: flattening is all or nothing: when flatten throws on one post of
    the query result, the exported function resolves to no posts at all. *)
Theorem one_unflattenable_post_empties_the_output (E : Engine) (w : World)
    (sched : list nat) (raws : list value) (raw : value) (e : exn) :
  getDatabaseData w = Ok (Arr raws) →
  raw ∈ raws →
  flatten raw = Throw e →
  module_exports w sched = Ok no_posts.
Proof.
  intros Hdata Hin Hraw. unfold module_exports. rewrite Hdata.
  cbn [bind array_receiver].
  by destruct (Array_map_throws flatten raws raw e Hin Hraw) as [e' ->].
Qed.

Lemma one_unflattenable_post_empties_the_output_witness :
  @module_exports latin1 null_property_world [0; 1] = Ok no_posts.
Proof.
  eapply (one_unflattenable_post_empties_the_output latin1 null_property_world [0; 1]
            _ post_with_null_property TypeError).
  - vm_compute. reflexivity.
  - apply elem_of_cons. right. apply elem_of_cons. left. vm_compute. reflexivity.
  - vm_compute. reflexivity.
Defined.

(** X5: every post that flatten returns is an object with the fields [id],
    [created], [url] and [slug], whatever the raw post held. *)
Theorem flattened_post_has_fixed_fields (E : Engine) (post out : value) :
  flatten post = Ok out →
  ∃ m : gmap jsstring value, out = Obj m ∧ Forall (λ k, is_Some (m !! k)) fixed_fields.
Proof. apply flatten_fixed_fields. Qed.

Lemma flattened_post_has_fixed_fields_witness :
  ∃ m : gmap jsstring value,
    Obj (<[js "slug" := Str []]> (<[js "url" := Undefined]>
          (<[js "created" := Undefined]> {[ js "id" := Undefined ]}))) = Obj m
    ∧ Forall (λ k, is_Some (m !! k)) fixed_fields.
Proof.
  apply (flattened_post_has_fixed_fields latin1 (Obj {[ js "properties" := Obj ∅ ]})).
  vm_compute. reflexivity.
Defined.

(** ** Rejections, and the independence of the schedule *)

Lemma settle_rejects (tasks : list (result value)) (events : list nat)
    (values : list value) (i : nat) (e : exn) :
  i ∈ events → tasks !! i = Some (Throw e) → ∃ e', settle tasks events values = Throw e'.
Proof.
  intros Hin Hi. revert values.
  induction events as [|j events IH]; intros values; [by apply elem_of_nil in Hin|].
  cbn [settle]. destruct (tasks !! j) as [[v|e']|] eqn:Hj; [|by eauto|].
  - apply elem_of_cons in Hin as [->|Hin]; [congruence|]. by apply IH.
  - apply elem_of_cons in Hin as [->|Hin]; [congruence|]. by apply IH.
Qed.

Lemma Promise_all_rejects (sched : list nat) (tasks : list (result value)) i e :
  tasks !! i = Some (Throw e) → ∃ e', Promise_all sched tasks = Throw e'.
Proof.
  intros Hi. unfold Promise_all. eapply settle_rejects; [|done].
  apply elem_of_app. right. apply elem_of_seq.
  apply lookup_lt_Some in Hi. lia.
Qed.

Lemma tasks_fulfilled (tasks : list (result value)) :
  Forall (λ t, ∃ v, t = Ok v) tasks → ∃ vs, tasks = Ok <$> vs.
Proof.
  induction 1 as [|t tasks [v ->] _ [vs ->]].
  - by exists [].
  - by exists (v :: vs).
Qed.

(** The outcome of [Promise.all] under any two schedules: the same values,
    or a rejection under both. *)
Lemma Promise_all_schedules (sched sched' : list nat) (tasks : list (result value)) :
  (∃ vs, tasks = Ok <$> vs ∧ Promise_all sched tasks = Ok vs
         ∧ Promise_all sched' tasks = Ok vs)
  ∨ (∃ e e', Promise_all sched tasks = Throw e ∧ Promise_all sched' tasks = Throw e').
Proof.
  destruct (returns_or_throws (λ t : result value, t) tasks) as [Hall|Hsome].
  - left. destruct (tasks_fulfilled tasks Hall) as [vs ->].
    exists vs. by rewrite !Promise_all_positional.
  - right. apply Exists_exists in Hsome as (t & Hin & e & ->).
    apply list_elem_of_lookup in Hin as [i Hi].
    destruct (Promise_all_rejects sched tasks i e Hi) as [e1 ->].
    destruct (Promise_all_rejects sched' tasks i e Hi) as [e2 ->]. eauto.
Qed.

Lemma Promise_all_fulfilled (sched : list nat) (tasks : list (result value))
    (vs : list value) :
  Promise_all sched tasks = Ok vs → tasks = Ok <$> vs.
Proof.
  intros Hvs.
  destruct (Promise_all_schedules sched sched tasks)
    as [(vs' & -> & Hvs' & _)|(e & _ & He & _)]; congruence.
Qed.

Lemma Array_map_lookup_inv {A B} (f : A → result B) (l : list A) (ys : list B) i y :
  Array_map f l = Ok ys → ys !! i = Some y → ∃ x, l !! i = Some x ∧ f x = Ok y.
Proof.
  revert ys i. induction l as [|x l IH]; intros ys i; cbn [Array_map].
  - by intros [= <-].
  - destruct (f x) as [y'|] eqn:Hx; cbn [bind]; [|done].
    destruct (Array_map f l) as [ys'|]; cbn [bind]; [|done].
    intros [= <-] Hi. destruct i as [|i]; simpl in Hi.
    + injection Hi as ->. eauto.
    + by apply (IH ys').
Qed.

Section schedule_facts.
Context `{Engine}.

Lemma render_post_request_fails (w : World) (flat : value) (s : jsstring) (e : exn) :
  nullish flat = false →
  ToString (prop flat (js "id")) = Ok s →
  Cache w (children_url s) = Throw e →
  render_post w flat = Throw e.
Proof.
  intros Hflat Hid Hfetch. unfold render_post, get, getPageBlockChildrenData.
  rewrite Hflat. cbn [bind]. rewrite Hid. cbn [bind].
  unfold children_url in Hfetch. by rewrite Hfetch.
Qed.

Lemma module_exports_render_fails (w : World) (sched : list nat)
    (raws flats : list value) (flat : value) (e : exn) :
  getDatabaseData w = Ok (Arr raws) →
  Array_map flatten raws = Ok flats →
  flat ∈ flats → render_post w flat = Throw e →
  module_exports w sched = Ok no_posts.
Proof.
  intros Hdata Hflats Hin Hflat. unfold module_exports. rewrite Hdata.
  cbn [bind array_receiver]. rewrite Hflats. cbn [bind].
  apply list_elem_of_lookup in Hin as [i Hi].
  destruct (Promise_all_rejects sched (render_post w <$> flats) i e) as [e' ->]; [|done].
  by rewrite list_lookup_fmap, Hi; cbn; rewrite Hflat.
Qed.

(** Every post of the output went through flatten and render_post. *)
Lemma module_exports_posts (w : World) (sched : list nat) :
  ∃ posts, module_exports w sched = Ok (Obj {[ js "posts" := Arr posts ]})
           ∧ Forall (λ out, ∃ raw flat, flatten raw = Ok flat
                                       ∧ render_post w flat = Ok out) posts.
Proof.
  unfold module_exports.
  destruct (getDatabaseData w) as [databaseData|]; cbn [bind try_catch]; [|by exists []].
  destruct (array_receiver databaseData) as [raws|]; cbn [bind try_catch]; [|by exists []].
  destruct (Array_map flatten raws) as [flats|] eqn:Hflats; cbn [bind try_catch];
    [|by exists []].
  destruct (Promise_all sched (render_post w <$> flats)) as [outs|] eqn:Houts;
    cbn [bind try_catch]; [|by exists []].
  exists outs. split; [done|]. apply Promise_all_fulfilled in Houts.
  apply Forall_forall. intros out [i Hi]%list_elem_of_lookup.
  assert ((render_post w <$> flats) !! i = Some (Ok out)) as Htask.
  { by rewrite Houts, list_lookup_fmap, Hi. }
  rewrite list_lookup_fmap in Htask.
  destruct (flats !! i) as [flat|] eqn:Hflat; [|done]. injection Htask as Hout.
  destruct (Array_map_lookup_inv _ _ _ _ _ Hflats Hflat) as (raw & _ & Hraw). eauto.
Qed.
End schedule_facts.

(** X6: the block requests are not isolated from one another: when the
    request for the children of one flattened post fails, the rejection
    reaches [Promise.all] and the exported function resolves to no posts at
    all, under every schedule. *)
Theorem one_failed_block_request_empties_the_output (E : Engine) (w : World)
    (sched : list nat) (raws flats : list value) (flat : value)
    (s : jsstring) (e : exn) :
  getDatabaseData w = Ok (Arr raws) →
  Array_map flatten raws = Ok flats →
  flat ∈ flats →
  ToString (prop flat (js "id")) = Ok s →
  Cache w (children_url s) = Throw e →
  module_exports w sched = Ok no_posts.
Proof.
  intros Hdata Hflats Hin Hid Hfetch.
  eapply module_exports_render_fails; [done..|].
  apply (render_post_request_fails w flat s e); [|done..].
  apply list_elem_of_lookup in Hin as [i Hi].
  destruct (Array_map_lookup_inv _ _ _ _ _ Hflats Hi) as (raw & _ & Hraw).
  by destruct (flatten_fixed_fields _ _ Hraw) as (m & -> & _).
Qed.

(** X7: the exported function always resolves to an object whose [posts]
    is an array, and every post in it is an object with the fields [id],
    [created], [url], [slug] and a string [block]. *)
Theorem output_posts_are_rendered_posts (E : Engine) (w : World) (sched : list nat) :
  ∃ posts, module_exports w sched = Ok (Obj {[ js "posts" := Arr posts ]})
           ∧ Forall rendered_post posts.
Proof.
  destruct (module_exports_posts w sched) as (posts & Hposts & Hall).
  exists posts. split; [done|]. eapply Forall_impl; [exact Hall|].
  intros out (raw & flat & Hflat & Hout).
  apply flatten_fixed_fields in Hflat as (m & -> & Hfields).
  apply render_post_extends in Hout as [body ->]. cbn [own_properties].
  exists (<[js "block" := Str body]> m), body. split_and!; [done|by rewrite lookup_insert_eq|].
  eapply Forall_impl; [exact Hfields|]. intros k Hk. cbn in Hk |- *.
  rewrite lookup_insert. by case_decide.
Qed.

(** X14: the result of the exported function does not depend on the order
    in which the block renderings complete: any two schedules give the same
    posts, or both give none. *)
Theorem output_ignores_completion_order (E : Engine) (w : World) (sched sched' : list nat) :
  module_exports w sched = module_exports w sched'.
Proof.
  unfold module_exports.
  destruct (getDatabaseData w) as [databaseData|]; cbn [bind]; [|done].
  destruct (array_receiver databaseData) as [posts|]; cbn [bind]; [|done].
  destruct (Array_map flatten posts) as [results|]; cbn [bind]; [|done].
  destruct (Promise_all_schedules sched sched' (render_post w <$> results))
    as [(vs & _ & -> & ->)|(e & e' & -> & ->)]; done.
Qed.

Lemma one_failed_block_request_empties_the_output_witness :
  @module_exports latin1 failing_blocks_world [1; 0] = Ok no_posts.
Proof.
  eapply (one_failed_block_request_empties_the_output latin1 failing_blocks_world [1; 0]).
  - vm_compute. reflexivity.
  - vm_compute. reflexivity.
  - apply elem_of_cons. right. apply elem_of_cons. left. reflexivity.
  - vm_compute. reflexivity.
  - vm_compute. reflexivity.
Defined.

(** ** The body of a post *)

Section body_facts.
Context `{Engine}.

Lemma render_post_response (w : World) (m : gmap jsstring value) (s : jsstring)
    (response : value) (blocks : list value) :
  ToString (prop (Obj m) (js "id")) = Ok s →
  Cache w (children_url s) = Ok response →
  nullish response = false →
  or_else (prop response (js "results")) (Arr []) = Arr blocks →
  render_post w (Obj m)
  = (body <- renderBlocks blocks;; Ok (Obj (<[js "block" := Str body]> m))).
Proof.
  intros Hid Hfetch Hresp Hblocks. unfold render_post, get, getPageBlockChildrenData.
  cbn [nullish bind]. rewrite Hid. cbn [bind]. unfold children_url in Hfetch.
  rewrite Hfetch. cbn [bind]. rewrite Hresp. cbn [bind]. by rewrite Hblocks.
Qed.

Lemma block_markup_text (type blockContent : value) (mdConvert : jsstring) (mdText : value) :
  block_markup type blockContent = Ok (mdConvert, mdText) → nullish mdText = false.
Proof.
  unfold block_markup.
  repeat match goal with |- (if ?b then _ else _) = _ → _ => destruct b end.
  1-5, 7: intros [= _ <-]; apply or_else_not_nullish.
  match goal with |- bind ?r _ = _ → _ => destruct r end; cbn [bind]; [|done].
  by intros [= _ <-].
Qed.

(** The line of a block is never [undefined] or [null], so reading its
    [length] in the filter cannot throw. *)
Lemma block_to_line_not_nullish (block : value) :
  ∃ line, block_to_line block = Ok line ∧ nullish line = false.
Proof.
  unfold block_to_line, block_conversion, try_catch.
  destruct (negb (ToBoolean block)); [by eauto|].
  destruct (get block (js "type")) as [type|]; cbn [bind]; [|by eauto].
  destruct (negb (ToBoolean type)); [by eauto|].
  destruct (ToPropertyKey type) as [k|]; cbn [bind]; [|by eauto].
  destruct (get block k) as [blockContent|]; cbn [bind]; [|by eauto].
  destruct (negb (ToBoolean blockContent)); [by eauto|].
  destruct (block_markup type blockContent) as [[mdConvert mdText]|] eqn:Hmd;
    cbn [bind]; [|by eauto].
  apply block_markup_text in Hmd.
  destruct (ToBoolean (Str mdConvert) && ToBoolean mdText); [|by eauto].
  destruct (ToString mdText); cbn [bind]; eauto.
Qed.

Lemma join_strings_nonempty (sep : jsstring) (l : list jsstring) :
  Forall (λ s, s ≠ []) l → l ≠ [] → join_strings sep l ≠ [].
Proof.
  intros Hl Hne. destruct l as [|s [|s' l]]; [done| |].
  - by apply Forall_cons in Hl as [? _].
  - apply Forall_cons in Hl as [Hs _]. cbn [join_strings]. by destruct s.
Qed.

Lemma join_strings_app (sep : jsstring) (l1 l2 : list jsstring) :
  l1 ≠ [] → l2 ≠ [] →
  join_strings sep (l1 ++ l2) = join_strings sep l1 ++ sep ++ join_strings sep l2.
Proof.
  intros Hl1 Hl2. induction l1 as [|s [|s' l1] IH]; [done| |].
  - by destruct l2.
  - change (join_strings sep ((s :: s' :: l1) ++ l2))
      with (s ++ sep ++ join_strings sep ((s' :: l1) ++ l2)).
    rewrite IH by done. cbn [join_strings]. by rewrite <-!(assoc_L (++)).
Qed.

Lemma join_strings_glue (l1 l2 : list jsstring) :
  Forall (λ s, s ≠ []) l1 → Forall (λ s, s ≠ []) l2 →
  join_strings newline (l1 ++ l2)
  = glue_bodies (join_strings newline l1) (join_strings newline l2).
Proof.
  intros Hl1 Hl2. destruct l1 as [|s1 l1]; [done|].
  destruct l2 as [|s2 l2].
  - rewrite app_nil_r. pose proof (join_strings_nonempty newline _ Hl1) as Hne.
    unfold glue_bodies. destruct (join_strings newline (s1 :: l1)); [by destruct Hne|done].
  - rewrite join_strings_app by done.
    pose proof (join_strings_nonempty newline _ Hl1) as Hne1.
    pose proof (join_strings_nonempty newline _ Hl2) as Hne2.
    unfold glue_bodies.
    destruct (join_strings newline (s1 :: l1)); [by destruct Hne1|].
    destruct (join_strings newline (s2 :: l2)); [by destruct Hne2|done].
Qed.

Lemma renderBlocks_app_lines (blocks1 blocks2 : list value) (lines1 lines2 : list jsstring) :
  Array_map block_to_line blocks1 = Ok (Str <$> lines1) →
  Array_map block_to_line blocks2 = Ok (Str <$> lines2) →
  ∃ body1 body2,
    renderBlocks blocks1 = Ok body1 ∧ renderBlocks blocks2 = Ok body2
    ∧ renderBlocks (blocks1 ++ blocks2) = Ok (glue_bodies body1 body2).
Proof.
  intros H1 H2. eexists _, _.
  split_and!; [by apply renderBlocks_lines..|].
  rewrite (renderBlocks_lines _ (lines1 ++ lines2)).
  - rewrite filter_app. f_equal. apply join_strings_glue.
    all: apply Forall_forall; by intros s [? _]%list_elem_of_filter.
  - rewrite Array_map_app, H1, H2. cbn [bind]. by rewrite fmap_app.
Qed.

Lemma Array_map_block_lines (bs : list Block) :
  Forall well_kinded_block bs →
  Array_map block_to_line (encode_block <$> bs) = Ok (Str <$> (spec_line <$> bs)).
Proof.
  intros Hbs. rewrite Array_map_fmap, <-list_fmap_compose.
  apply Array_map_Ok. intros b Hb. apply block_to_line_encode.
  by eapply Forall_forall.
Qed.
End body_facts.

(** X8: the body of a post is the rendering of the blocks that the request
    under the post's flattened [id] returns, set as the field [block] over
    whatever the flattened post held under that name; a response without
    [results] gives the empty body. *)
Theorem body_is_rendering_of_fetched_blocks (E : Engine) (w : World)
    (m : gmap jsstring value) (s : jsstring) (response : value) :
  ToString (prop (Obj m) (js "id")) = Ok s →
  Cache w (children_url s) = Ok response →
  nullish response = false →
  (∀ blocks body,
      prop response (js "results") = Arr blocks →
      renderBlocks blocks = Ok body →
      render_post w (Obj m) = Ok (Obj (<[js "block" := Str body]> m)))
  ∧ (ToBoolean (prop response (js "results")) = false →
     render_post w (Obj m) = Ok (Obj (<[js "block" := Str []]> m))).
Proof.
  intros Hid Hfetch Hresp. split.
  - intros blocks body Hblocks Hbody.
    rewrite (render_post_response w m s response blocks); [by rewrite Hbody|done..|].
    by rewrite Hblocks.
  - intros Hnone.
    rewrite (render_post_response w m s response []); [done..|].
    unfold or_else. by rewrite Hnone.
Qed.

Lemma body_is_rendering_of_fetched_blocks_witness :
  @render_post latin1 two_posts_world
    (Obj (<[js "id" := Str (js "p2")]> {[ js "block" := Str (js "a property") ]}))
  = Ok (Obj (<[js "id" := Str (js "p2")]> {[ js "block" := Str [] ]})).
Proof.
  set (m := <[js "id" := Str (js "p2")]> {[ js "block" := Str (js "a property") ]}
            : gmap jsstring value).
  destruct (body_is_rendering_of_fetched_blocks latin1 two_posts_world m (js "p2")
              (Obj {[ js "results" := Arr [] ]})) as [Hblocks _].
  - vm_compute. reflexivity.
  - vm_compute. reflexivity.
  - reflexivity.
  - rewrite (Hblocks [] []).
    + vm_compute. reflexivity.
    + vm_compute. reflexivity.
    + vm_compute. reflexivity.
Defined.

(** X9: rendering composes: the body of two sequences of typed blocks one
    after the other is the body of the first and the body of the second,
    with a newline between them when neither is empty. *)
Theorem body_of_concatenation (E : Engine) (bs1 bs2 : list Block) :
  Forall well_kinded_block bs1 → Forall well_kinded_block bs2 →
  ∃ body1 body2,
    renderBlocks (encode_block <$> bs1) = Ok body1
    ∧ renderBlocks (encode_block <$> bs2) = Ok body2
    ∧ renderBlocks (encode_block <$> (bs1 ++ bs2)) = Ok (glue_bodies body1 body2).
Proof.
  intros H1 H2. rewrite fmap_app.
  eapply renderBlocks_app_lines; by apply Array_map_block_lines.
Qed.

Lemma body_of_concatenation_witness :
  ∃ body1 body2,
    @renderBlocks latin1 (encode_block <$> [TextBlock heading_2 [Some (js "A")]]) = Ok body1
    ∧ renderBlocks (encode_block <$> [TextBlock paragraph []; ImageBlock None]) = Ok body2
    ∧ renderBlocks (encode_block <$> ([TextBlock heading_2 [Some (js "A")]]
                                       ++ [TextBlock paragraph []; ImageBlock None]))
      = Ok (glue_bodies body1 body2).
Proof.
  apply (body_of_concatenation latin1); repeat constructor.
Defined.

(** X10: the line computed for a block is never [undefined] or [null],
    whatever the block is, so the [text.length] of the filter at line 213
    never fails on it. *)
Theorem block_line_is_never_nullish (E : Engine) (block : value) :
  ∃ line, block_to_line block = Ok line
          ∧ nullish line = false
          ∧ ∃ len, get line (js "length") = Ok len.
Proof.
  destruct (block_to_line_not_nullish block) as (line & Hline & Hnull).
  exists line. split_and!; [done..|]. unfold get. rewrite Hnull. eauto.
Qed.

(** X13: only the first entry of a payload is read: the runs of a text
    block after the first, and the runs or files of a property after the
    first, change neither the line nor the flattened field. *)
Theorem only_first_entry_is_read (E : Engine) :
  (∀ kind run runs,
      well_kinded_block (TextBlock kind []) →
      block_to_line (encode_block (TextBlock kind (run :: runs)))
      = block_to_line (encode_block (TextBlock kind [run])))
  ∧ (∀ key kind run runs,
        mapNotionResponseToTextContent (key, encode_property (PText kind (run :: runs)))
        = mapNotionResponseToTextContent (key, encode_property (PText kind [run])))
  ∧ (∀ key file files,
        mapNotionResponseToTextContent (key, encode_property (PFiles (file :: files)))
        = mapNotionResponseToTextContent (key, encode_property (PFiles [file]))).
Proof.
  split_and!.
  - intros kind run runs Hkind. by rewrite !block_to_line_encode by (by destruct kind).
  - intros key kind run runs. by rewrite !mapNotionResponseToTextContent_encode.
  - intros key file files. by rewrite !mapNotionResponseToTextContent_encode.
Qed.

Lemma only_first_entry_is_read_witness :
  block_to_line (encode_block (TextBlock (other_kind (js "quote"))
                                 [Some (js "kept"); Some (js "lost")]))
  = block_to_line (encode_block (TextBlock (other_kind (js "quote")) [Some (js "kept")])).
Proof.
  apply (proj1 (only_first_entry_is_read latin1)). compute_done.
Defined.

(** ** A slug is stable *)

Lemma word_or_hyphen_range (c : N) : is_word c ∨ is_hyphen c → (45 ≤ c ≤ 122)%N.
Proof.
  unfold is_word, is_hyphen. rewrite <-orb_True. intros Hc%Is_true_true.
  rewrite !orb_true_iff, !andb_true_iff, !N.leb_le, !N.eqb_eq in Hc. lia.
Qed.

Lemma is_space_range (c : N) : is_space c → (c ≤ 32 ∨ 160 ≤ c)%N.
Proof.
  unfold is_space. intros Hc%Is_true_true.
  rewrite !orb_true_iff, !andb_true_iff, !N.leb_le, !N.eqb_eq in Hc. lia.
Qed.

Lemma is_combining_mark_range (c : N) : is_combining_mark c → (768 ≤ c)%N.
Proof.
  unfold is_combining_mark. intros Hc%Is_true_true.
  rewrite !andb_true_iff, !N.leb_le in Hc. lia.
Qed.

Lemma is_ampersand_code (c : N) : is_ampersand c → c = 38%N.
Proof. unfold is_ampersand. by intros Hc%Is_true_true%N.eqb_eq. Qed.

Lemma is_hyphen_code (c : N) : is_hyphen c → c = 45%N.
Proof. unfold is_hyphen. by intros Hc%Is_true_true%N.eqb_eq. Qed.

Lemma drop_while_none (p : N → bool) (s : jsstring) :
  Forall (λ c, ¬ p c) s → drop_while p s = s.
Proof.
  destruct s as [|c s]; [done|]. intros [Hc _]%Forall_cons. cbn [drop_while].
  by destruct (p c).
Qed.

Lemma trim_none (s : jsstring) : Forall (λ c, ¬ is_space c) s → trim s = s.
Proof.
  intros Hs. unfold trim. rewrite (drop_while_none _ s Hs).
  rewrite drop_while_none by by apply Forall_reverse. apply reverse_involutive.
Qed.

Lemma filter_all {A} (P : A → Prop) `{∀ x, Decision (P x)} (l : list A) :
  Forall P l → filter P l = l.
Proof.
  induction 1 as [|x l Hx _ IH]; [done|]. by rewrite filter_cons_True, IH.
Qed.

Lemma collapse_runs_none (cls : N → bool) (rep : jsstring) (inside : bool) (s : jsstring) :
  Forall (λ c, ¬ cls c) s → collapse_runs cls rep inside s = s.
Proof.
  intros Hs. revert inside. induction Hs as [|c s Hc _ IH]; intros inside; [done|].
  cbn [collapse_runs]. destruct (cls c); [by destruct Hc|]. by rewrite IH.
Qed.

Lemma replace_each_none (cls : N → bool) (rep s : jsstring) :
  Forall (λ c, ¬ cls c) s → replace_each cls rep s = s.
Proof.
  unfold replace_each. induction 1 as [|c s Hc _ IH]; [done|].
  csimpl. rewrite IH. destruct (cls c); [by destruct Hc|done].
Qed.

Lemma collapse_single_hyphens (inside : bool) (s : jsstring) :
  no_double_hyphen s →
  (inside → match s with c :: _ => ¬ is_hyphen c | [] => True end) →
  collapse_runs is_hyphen (js "-") inside s = s.
Proof.
  revert inside. induction s as [|c s IH]; intros inside Hno Hhead; [done|].
  cbn [collapse_runs]. destruct (is_hyphen c) eqn:Hc.
  - destruct inside; [by destruct Hhead|].
    assert (c = 45%N) as -> by (apply is_hyphen_code; by rewrite Hc).
    change (js "-" ++ ?l) with (45%N :: l). f_equal. apply IH.
    + by destruct s as [|d s]; [|destruct Hno].
    + intros _. destruct s as [|d s]; [done|]. destruct Hno as [Hno _].
      intros Hd. apply Hno. by split.
  - f_equal. apply IH; [|done]. by destruct s as [|d s]; [|destruct Hno].
Qed.

Section stable_slug.
Context `{Engine}.

Lemma slug_text_fixpoint (t : jsstring) :
  Forall (λ c, is_word c ∨ is_hyphen c) t → no_double_hyphen t →
  toLowerCase t = t → normalize_NFD t = t → slug_text t = t.
Proof.
  intros Hchars Hno Hlower Hnfd. rewrite slug_text_steps. unfold spec_slug_text.
  assert (Forall (λ c, ¬ is_space c) t) as Hspace.
  { eapply Forall_impl; [exact Hchars|]. intros c Hc%word_or_hyphen_range Hs%is_space_range. lia. }
  assert (Forall (λ c, ¬ is_combining_mark c) t) as Hmark.
  { eapply Forall_impl; [exact Hchars|].
    intros c Hc%word_or_hyphen_range Hs%is_combining_mark_range. lia. }
  assert (Forall (λ c, ¬ is_ampersand c) t) as Hamp.
  { eapply Forall_impl; [exact Hchars|].
    intros c Hc%word_or_hyphen_range Hs%is_ampersand_code. lia. }
  rewrite Hlower, (trim_none t Hspace), Hnfd, (filter_all _ t Hmark).
  rewrite (collapse_runs_none _ _ _ t Hspace).
  change (t ≫= _) with (replace_each is_ampersand (js "-and-") t).
  rewrite (replace_each_none _ _ t Hamp), (filter_all _ t Hchars).
  by apply collapse_single_hyphens.
Qed.
End stable_slug.

(** X11: a slug is stable: when lowercasing and normalizing leave a slug as
    it is (as they do for a string of ASCII small letters, digits,
    underscores and hyphens), slugifying the slug gives the slug. *)
Theorem slug_of_slug (E : Engine) (s : jsstring) :
  toLowerCase (slug_text s) = slug_text s →
  normalize_NFD (slug_text s) = slug_text s →
  slug_text (slug_text s) = slug_text s
  ∧ slugify (Str (slug_text s)) = Ok (slug_text s).
Proof.
  intros Hlower Hnfd.
  assert (slug_text (slug_text s) = slug_text s) as Hfix.
  { apply slug_text_fixpoint; [| |done..]; rewrite slug_text_steps; apply spec_slug_text_shape. }
  split; [done|]. unfold slugify. cbn [ToBoolean].
  case_bool_decide as Hempty; cbn [negb ToString bind]; [by rewrite Hempty|by rewrite Hfix].
Qed.

Lemma slug_of_slug_witness :
  @slugify latin1 (Str (@slug_text latin1 hello_world)) = Ok (@slug_text latin1 hello_world).
Proof.
  apply (slug_of_slug latin1 hello_world); vm_compute; reflexivity.
Defined.

(** ** The query result *)

Section query_facts.
Context `{Engine}.

Lemma getDatabaseData_response (w : World) (dataSourceId : value) (s : jsstring)
    (response : value) :
  getDataSourceId w = Ok dataSourceId →
  ToString dataSourceId = Ok s →
  Cache w (query_url s) = Ok response →
  getDatabaseData w
  = if nullish response then Ok (Arr []) else Ok (prop response (js "results")).
Proof.
  intros Hsource Hid Hquery. unfold getDatabaseData. rewrite Hsource. cbn [bind].
  rewrite Hid. cbn [bind]. unfold query_url in Hquery. rewrite Hquery.
  cbn [bind]. unfold get. by destruct (nullish response).
Qed.

Lemma module_exports_not_an_array (w : World) (sched : list nat) (databaseData : value) :
  getDatabaseData w = Ok databaseData → Array_isArray databaseData = false →
  module_exports w sched = Ok no_posts.
Proof.
  intros Hdata Harray. unfold module_exports. rewrite Hdata. cbn [bind].
  by destruct databaseData.
Qed.
End query_facts.

(** X12: when both requests succeed, getDatabaseData passes on the
    [results] field of the query response as it is, [undefined] when the
    response has none; if that is not an array, the exported function
    resolves to no posts. A [null] response counts as a failure and gives
    the empty list. *)
Theorem query_results_are_passed_on (E : Engine) (w : World) (dataSourceId : value)
    (s : jsstring) (response : value) :
  getDataSourceId w = Ok dataSourceId →
  ToString dataSourceId = Ok s →
  Cache w (query_url s) = Ok response →
  (nullish response = false → getDatabaseData w = Ok (prop response (js "results")))
  ∧ (nullish response = false → Array_isArray (prop response (js "results")) = false →
     ∀ sched, module_exports w sched = Ok no_posts)
  ∧ (nullish response = true → getDatabaseData w = Ok (Arr [])).
Proof.
  intros Hsource Hid Hquery.
  pose proof (getDatabaseData_response w _ _ _ Hsource Hid Hquery) as Hdata.
  split_and!.
  - intros Hresp. by rewrite Hresp in Hdata.
  - intros Hresp Harray sched. rewrite Hresp in Hdata.
    by eapply module_exports_not_an_array.
  - intros Hresp. by rewrite Hresp in Hdata.
Qed.

Lemma query_results_are_passed_on_witness :
  @getDatabaseData latin1 missing_results_world = Ok Undefined
  ∧ @module_exports latin1 missing_results_world [] = Ok no_posts.
Proof.
  destruct (query_results_are_passed_on latin1 missing_results_world (Str (js "ds")) (js "ds")
              (Obj {[ js "object" := Str (js "error") ]})) as (Hdata & Hnone & _).
  - vm_compute. reflexivity.
  - reflexivity.
  - vm_compute. reflexivity.
  - split.
    + rewrite Hdata; [|reflexivity]. vm_compute. reflexivity.
    + apply Hnone; [reflexivity|]. vm_compute. reflexivity.
Defined.

(** X15: getDataSourceId returns a value only from the first entry of a
    listed data source: whenever it returns, the database request succeeded,
    its [data_sources] field is truthy with a length above zero, and the
    value is the [id] read from its entry [0]. *)
Theorem getDataSourceId_returns_only_first_id (E : Engine) (w : World) (id : value) :
  getDataSourceId w = Ok id →
  ∃ response data_sources first,
    Cache w (ROOT_NOTION_API ++ js "/databases/" ++ env_text (DATABASE_ID w)) = Ok response
    ∧ get response (js "data_sources") = Ok data_sources
    ∧ ToBoolean data_sources = true
    ∧ (len <- get data_sources (js "length");; greater_than_zero len) = Ok true
    ∧ get data_sources (js "0") = Ok first
    ∧ get first (js "id") = Ok id.
Proof.
  unfold getDataSourceId, try_catch.
  destruct (Cache w _) as [response|] eqn:Hfetch; cbn [bind]; [|done].
  destruct (get response (js "data_sources")) as [data_sources|] eqn:Hsources;
    cbn [bind]; [|done].
  destruct (ToBoolean data_sources) eqn:Htruthy; cbn [bind]; [|done].
  destruct (len <- get data_sources (js "length");; greater_than_zero len)
    as [[]|] eqn:Hlen; cbn [bind]; [|done..].
  destruct (get data_sources (js "0")) as [first|] eqn:Hfirst; cbn [bind]; [|done].
  destruct (get first (js "id")) as [id'|] eqn:Hid; [|done].
  intros [= <-]. eauto 10.
Qed.

Lemma getDataSourceId_returns_only_first_id_witness :
  ∃ response data_sources first,
    Cache two_posts_world
      (ROOT_NOTION_API ++ js "/databases/" ++ env_text (DATABASE_ID two_posts_world))
    = Ok response
    ∧ get response (js "data_sources") = Ok data_sources
    ∧ ToBoolean data_sources = true
    ∧ (len <- get data_sources (js "length");; @greater_than_zero latin1 len) = Ok true
    ∧ get data_sources (js "0") = Ok first
    ∧ get first (js "id") = Ok (Str (js "ds")).
Proof.
  apply (getDataSourceId_returns_only_first_id latin1 two_posts_world).
  vm_compute. reflexivity.
Defined.

(** ** The pipeline on typed data *)

Section typed_pipeline.
Context `{Engine}.

Lemma module_exports_fulfilled (w : World) (sched : list nat)
    (raws flats outs : list value) :
  getDatabaseData w = Ok (Arr raws) →
  Array_map flatten raws = Ok flats →
  Array_map (render_post w) flats = Ok outs →
  module_exports w sched = Ok (Obj {[ js "posts" := Arr outs ]}).
Proof.
  intros Hdata Hflats Houts. unfold module_exports. rewrite Hdata.
  cbn [bind array_receiver]. rewrite Hflats. cbn [bind].
  by rewrite (Array_map_tasks _ _ _ Houts), Promise_all_positional.
Qed.

Lemma render_post_served (w : World) (p : RawPost) (blocks : list Block) :
  served_post w p blocks →
  render_post w (Obj (spec_flatten p)) = Ok (spec_post p blocks).
Proof.
  intros (Hkinds & Hid & Hblocks & Hfetch).
  rewrite (render_post_response w _ (post_id p)
             (Obj {[ js "results" := Arr (encode_block <$> blocks) ]})
             (encode_block <$> blocks)).
  - by rewrite renderBlocks_encode.
  - assert (spec_flatten p !! js "id" = Some (Str (post_id p))) as Hlookup.
    { unfold spec_flatten. rewrite lookup_union_r.
      - by rewrite lookup_insert_eq.
      - rewrite lookup_fmap, lookup_omap. by rewrite Hid. }
    by rewrite (prop_Obj_Some _ _ _ Hlookup).
  - done.
  - done.
  - done.
Qed.
End typed_pipeline.

(** X16: on typed data the stages compose: when the query returns typed
    posts, none with a kept property named [id], and the block request of
    each post answers with typed blocks, the exported function resolves,
    under every schedule, to the posts in order, each the flattened post of
    the specification with the rendering of its blocks as [block]. *)
Theorem typed_posts_end_to_end (E : Engine) (w : World) (sched : list nat)
    (ps : list RawPost) (blocks_of : RawPost → list Block) :
  getDatabaseData w = Ok (Arr (encode_post <$> ps)) →
  Forall (λ p, served_post w p (blocks_of p)) ps →
  module_exports w sched
  = Ok (Obj {[ js "posts" := Arr ((λ p, spec_post p (blocks_of p)) <$> ps) ]}).
Proof.
  intros Hdata Hserved.
  apply (module_exports_fulfilled w sched (encode_post <$> ps)
           ((λ p, Obj (spec_flatten p)) <$> ps)).
  - done.
  - rewrite Array_map_fmap. apply Array_map_Ok. intros p Hp. cbn [compose].
    apply flatten_encode. rewrite Forall_forall in Hserved. by apply Hserved.
  - rewrite Array_map_fmap. apply Array_map_Ok. intros p Hp. cbn [compose].
    apply render_post_served. rewrite Forall_forall in Hserved. by apply Hserved.
Qed.

Lemma typed_posts_end_to_end_witness :
  @module_exports latin1 two_posts_world [1; 0]
  = Ok (Obj {[ js "posts" :=
                 Arr [spec_post (example_post "p1" "My Post") example_blocks;
                      spec_post (example_post "p2" "Second") []] ]}).
Proof.
  apply (typed_posts_end_to_end latin1 two_posts_world [1; 0]
           [example_post "p1" "My Post"; example_post "p2" "Second"] example_blocks_of).
  - vm_compute. reflexivity.
  - repeat apply Forall_cons_2; [..|apply Forall_nil_2].
    all: split_and!;
      [apply map_Forall_insert_2; [exact I|]; apply map_Forall_singleton; exact I
      |vm_compute; reflexivity
      |repeat constructor
      |vm_compute; reflexivity].
Defined.
